(** * ATT&CK knowledge-graph query layer (main.py)

    A shallow embedding of the query catalog of [AttackKG]: the property
    graph the Cypher texts read, the clauses those texts are made of
    (MATCH, OPTIONAL MATCH, WHERE, aggregation, ORDER BY, LIMIT), the
    result materializer [df_from_result] and the session-scoped executor
    [query].

    Conventions of the embedding.
    - A node carries the label test [:Attack] and the properties the
      queries read; a property that is absent is [None] (Cypher null).
    - Rows are produced in scan order: nodes in the order of [nodes],
      relationships in the order of [rels].  Grouping keeps the order of
      first appearance and ORDER BY is a stable sort.  Cypher leaves these
      orders open; the general theorems below use them only through
      sortedness and permutation facts.
    - Strings are byte strings; [toLower] folds the letters A-Z.
    - Instants are integers counting milliseconds, and a day of a duration
      is 86 400 000 of them. *)

From Stdlib Require Import List String Ascii ZArith Bool Lia Arith.
From Stdlib Require Import Permutation Sorted.
Import ListNotations.
Local Open Scope string_scope.
Local Open Scope Z_scope.

Set Implicit Arguments.
Set Warnings "-register-all".

(* ===================================================================== *)
(** ** Strings: [toLower] and [CONTAINS] *)

Module Str.

Definition is_upper (c : ascii) : bool :=
  let n := nat_of_ascii c in (65 <=? n)%nat && (n <=? 90)%nat.


Definition lower_char (c : ascii) : ascii :=
  if is_upper c then ascii_of_nat (nat_of_ascii c + 32) else c.


Fixpoint toLower (s : string) : string :=
  match s with
  | EmptyString => EmptyString
  | String c r => String (lower_char c) (toLower r)
  end.


(** [contains s sub]: the Cypher test [s CONTAINS sub]. *)
Fixpoint contains (s sub : string) : bool :=
  String.prefix sub s ||
  match s with
  | EmptyString => false
  | String _ r => contains r sub
  end.

End Str.

(* ===================================================================== *)
(** ** The property graph *)

Inductive RelKind := ATTACK_REL | IN_TACTIC.

Definition RelKind_eqb (a b : RelKind) : bool :=
  match a, b with
  | ATTACK_REL, ATTACK_REL | IN_TACTIC, IN_TACTIC => true
  | _, _ => false
  end.

Record Node := mkNode {
  nid : Z;
  attack : bool;                      (* carries the label :Attack *)
  stix_type : option string;
  name : option string;
  shortname : option string;
  platforms : option (list string);
  domains : option (list string);
  deprecated : option bool;
  revoked : option bool;
  modified : option Z                 (* instant, in milliseconds *)
}.

Record Rel := mkRel {
  rid : Z;
  kind : RelKind;
  rel_type : option string;
  src : Z;
  dst : Z
}.

Record Graph := mkGraph {
  nodes : list Node;
  rels : list Rel
}.

Definition same_node (a b : Node) : bool := nid a =? nid b.

Definition node_at (G : Graph) (i : Z) : option Node :=
  find (fun n => nid n =? i) (nodes G).

(** Equality tests on nullable values, as WHERE and property maps use them:
    a null never equals anything. *)
Definition str_is (o : option string) (s : string) : bool :=
  match o with Some x => String.eqb x s | None => false end.

Definition ostr_eqb (a b : option string) : bool :=
  match a, b with
  | Some x, Some y => String.eqb x y
  | None, None => true
  | _, _ => false
  end.

(** [(n:Attack {stix_type: t})] *)
Definition has_type (t : string) (n : Node) : bool :=
  attack n && str_is (stix_type n) t.

(** [toLower(n.name) CONTAINS g] *)
Definition name_contains (g : string) (n : Node) : bool :=
  match name n with
  | Some s => Str.contains (Str.toLower s) g
  | None => false
  end.

(** [-[:ATTACK_REL {rel_type: t}]-] *)
Definition is_rel (t : string) (r : Rel) : bool :=
  RelKind_eqb (kind r) ATTACK_REL && str_is (rel_type r) t.

(** [(u)-[r]->(v)] with [r] accepted by [pr] and [v] by [pn]. *)
Definition out_of (G : Graph) (pr : Rel -> bool) (pn : Node -> bool) (u : Node)
  : list Node :=
  flat_map (fun r =>
    if pr r && (src r =? nid u) then
      match node_at G (dst r) with
      | Some v => if pn v then [v] else []
      | None => []
      end
    else []) (rels G).

(** [(v)-[r]->(u)], the same with [u] as the target. *)
Definition into (G : Graph) (pr : Rel -> bool) (pn : Node -> bool) (u : Node)
  : list Node :=
  flat_map (fun r =>
    if pr r && (dst r =? nid u) then
      match node_at G (src r) with
      | Some v => if pn v then [v] else []
      | None => []
      end
    else []) (rels G).

(** OPTIONAL MATCH: the matches, or one null when there is none. *)
Definition optional {A} (l : list A) : list (option A) :=
  match l with
  | [] => [None]
  | _ => map Some l
  end.

(* ===================================================================== *)
(** ** Aggregation, ordering and limits *)

Section Clauses.
Variables K V : Type.
Variable eqb : K -> K -> bool.

Fixpoint distinct (l : list K) : list K :=
  match l with
  | [] => []
  | x :: r => x :: filter (fun y => negb (eqb x y)) (distinct r)
  end.

(** Implicit grouping: one output row per distinct key, with the values
    of the input rows that carry that key. *)
Definition group_by (rows : list (K * V)) : list (K * list V) :=
  map (fun k => (k, map snd (filter (fun r => eqb k (fst r)) rows)))
      (distinct (map fst rows)).
End Clauses.

Section Order.
Variable A : Type.
Variable leb : A -> A -> bool.

Fixpoint insert_by (x : A) (l : list A) : list A :=
  match l with
  | [] => [x]
  | y :: r => if leb x y then x :: l else y :: insert_by x r
  end.

(** ORDER BY, stable: a row is inserted before the first row that it
    does not exceed among those placed after it. *)
Fixpoint order_by (l : list A) : list A :=
  match l with
  | [] => []
  | x :: r => insert_by x (order_by r)
  end.
End Order.

(** [count(x)] counts the non-null values; [collect(DISTINCT x)] keeps
    each non-null value once. *)
Fixpoint somes {A} (l : list (option A)) : list A :=
  match l with
  | [] => []
  | Some x :: r => x :: somes r
  | None :: r => somes r
  end.

Definition count {A} (l : list (option A)) : Z := Z.of_nat (List.length (somes l)).

Definition collect_distinct (l : list (option string)) : list string :=
  distinct String.eqb (somes l).

Definition collect (l : list (option string)) : list string := somes l.

(** Ascending order on nullable strings: null sorts last. *)
Definition ostr_leb (a b : option string) : bool :=
  match a, b with
  | _, None => true
  | None, Some _ => false
  | Some x, Some y => String.leb x y
  end.

(** LIMIT n *)
Definition limit {A} (n : nat) (l : list A) : list A := firstn n l.


(* ===================================================================== *)
(** ** The catalog's query texts, clause by clause

    Each definition is the meaning of the Cypher text of the method of the
    same name, applied to a graph and the bound parameters, as typed rows
    in RETURN order. *)

Inductive Error :=
| NegativeLimit            (* LIMIT bound to a negative integer *)
| CommonEndNodes           (* shortestPath asked between a node and itself *)
| DbError (msg : string).  (* any other failure of the database *)

Definition QResult (A : Type) : Type := (Error + A)%type.

Record Path := mkPath {
  pstart : Node;
  psteps : list (Rel * Node)
}.

(** What the database contributes besides the graph: its clock, and the
    setting [dbms.cypher.forbid_shortestpath_common_nodes] (true unless the
    administrator changed it). *)
Record Engine := mkEngine {
  now : Z;
  forbid_common_nodes : bool
}.

Definition day_ms : Z := 86400000.

Module Cypher.

Definition technique := has_type "attack-pattern".
Definition group_ := has_type "intrusion-set".
Definition tactic_ := has_type "x-mitre-tactic".
Definition mitigation := has_type "course-of-action".
Definition data_component := has_type "x-mitre-data-component".
Definition data_source := has_type "x-mitre-data-source".

(** [s:Attack] with [s.stix_type IN ['tool','malware']] *)
Definition software_ (n : Node) : bool :=
  attack n && (str_is (stix_type n) "tool" || str_is (stix_type n) "malware").

Definition in_tactic (r : Rel) : bool := RelKind_eqb (kind r) IN_TACTIC.

Definition desc_by {A} (f : A -> Z) (a b : A) : bool := f b <=? f a.

Definition zlen {A} (l : list A) : Z := Z.of_nat (List.length l).

(** [MATCH (grp:Attack {stix_type:'intrusion-set'})
     WHERE toLower(grp.name) CONTAINS g] *)
Definition groups_matching (G : Graph) (g : string) : list Node :=
  filter (fun n => group_ n && name_contains g n) (nodes G).

(** ... followed by
    [MATCH (grp)-[:ATTACK_REL {rel_type:'uses'}]->(tech:Attack {stix_type:'attack-pattern'})] *)
Definition techniques_used (G : Graph) (g : string) : list Node :=
  flat_map (out_of G (is_rel "uses") technique) (groups_matching G g).

(* ----- Part A ----- *)

(** q1: [MATCH (n:Attack) RETURN count(n) AS nodes]
    q2: [MATCH ()-[r:ATTACK_REL]->() RETURN count(r) AS relationships]
    Each query returns one row; the method returns the two tables. *)
Definition A1_counts (G : Graph) : list Z * list Z :=
  ([zlen (filter attack (nodes G))],
   [zlen (filter (fun r =>
            RelKind_eqb (kind r) ATTACK_REL &&
            match node_at G (src r), node_at G (dst r) with
            | Some _, Some _ => true
            | _, _ => false
            end) (rels G))]).

(** [MATCH (n:Attack)
     RETURN n.stix_type AS type, count( * ) AS n
     ORDER BY n DESC] *)
Definition A2_object_types (G : Graph) : list (option string * Z) :=
  order_by (desc_by snd)
    (map (fun kv => (fst kv, zlen (snd kv)))
       (group_by ostr_eqb
          (map (fun n => (stix_type n, tt)) (filter attack (nodes G))))).

(** [MATCH ()-[r:ATTACK_REL]->()
     RETURN r.rel_type AS rel_type, count( * ) AS n
     ORDER BY n DESC] *)
Definition A3_relationship_types (G : Graph) : list (option string * Z) :=
  order_by (desc_by snd)
    (map (fun kv => (fst kv, zlen (snd kv)))
       (group_by ostr_eqb
          (map (fun r => (rel_type r, tt))
             (filter (fun r =>
                RelKind_eqb (kind r) ATTACK_REL &&
                match node_at G (src r), node_at G (dst r) with
                | Some _, Some _ => true
                | _, _ => false
                end) (rels G))))).

(** [MATCH (tac:Attack {stix_type:'x-mitre-tactic'})<-[:IN_TACTIC]-(tech:Attack {stix_type:'attack-pattern'})
     RETURN tac.shortname AS tactic, count(tech) AS techniques
     ORDER BY techniques DESC] *)
Definition A4_tactic_technique_counts (G : Graph) : list (option string * Z) :=
  order_by (desc_by snd)
    (map (fun kv => (fst kv, count (snd kv)))
       (group_by ostr_eqb
          (flat_map (fun tac =>
             map (fun tech => (shortname tac, Some tech))
                 (into G in_tactic technique tac))
             (filter tactic_ (nodes G))))).

Definition coalesce_false (o : option bool) : bool :=
  match o with Some b => b | None => false end.

(** [MATCH (t:Attack {stix_type:'attack-pattern'})
     RETURN
       sum(CASE WHEN coalesce(t.deprecated,false) OR coalesce(t.revoked,false) THEN 1 ELSE 0 END) AS inactive,
       sum(CASE WHEN NOT coalesce(t.deprecated,false) AND NOT coalesce(t.revoked,false) THEN 1 ELSE 0 END) AS active] *)
Definition A5_active_vs_inactive (G : Graph) : list (Z * Z) :=
  let ts := filter technique (nodes G) in
  let sum := fold_right Z.add 0 in
  [(sum (map (fun t =>
      if coalesce_false (deprecated t) || coalesce_false (revoked t)
      then 1 else 0) ts),
    sum (map (fun t =>
      if negb (coalesce_false (deprecated t)) && negb (coalesce_false (revoked t))
      then 1 else 0) ts))].

(* ----- Part B ----- *)

Definition pair_leb (a b : option string * option string) : bool :=
  if ostr_eqb (fst a) (fst b) then ostr_leb (snd a) (snd b)
  else ostr_leb (fst a) (fst b).

(** [WITH toLower($group) AS g
     MATCH (grp:Attack {stix_type:'intrusion-set'})
     WHERE toLower(grp.name) CONTAINS g
     MATCH (grp)-[:ATTACK_REL {rel_type:'uses'}]->(tech:Attack {stix_type:'attack-pattern'})
     OPTIONAL MATCH (tech)-[:IN_TACTIC]->(tac:Attack {stix_type:'x-mitre-tactic'})
     RETURN tac.shortname AS tactic, tech.name AS technique
     ORDER BY tactic, technique
     LIMIT 150] *)
Definition B1_group_techniques (G : Graph) (group : string)
  : list (option string * option string) :=
  let g := Str.toLower group in
  limit 150
    (order_by pair_leb
       (flat_map (fun tech =>
          map (fun tac =>
                 (match tac with Some t => shortname t | None => None end,
                  name tech))
              (optional (out_of G in_tactic tactic_ tech)))
          (techniques_used G g))).

(** [... MATCH (grp)-[:ATTACK_REL {rel_type:'uses'}]->(s:Attack)
     WHERE s.stix_type IN ['tool','malware']
     RETURN s.stix_type AS kind, s.name AS software
     ORDER BY kind, software
     LIMIT 100] *)
Definition B2_group_software (G : Graph) (group : string)
  : list (option string * option string) :=
  let g := Str.toLower group in
  limit 100
    (order_by pair_leb
       (map (fun s => (stix_type s, name s))
          (flat_map (out_of G (is_rel "uses") software_)
             (groups_matching G g)))).

(** [... MATCH (grp)-[:ATTACK_REL {rel_type:'uses'}]->(s:Attack)
     WHERE s.stix_type IN ['tool','malware']
     MATCH (s)-[:ATTACK_REL {rel_type:'uses'}]->(tech:Attack {stix_type:'attack-pattern'})
     WITH s, collect(DISTINCT tech.name) AS techniques
     RETURN s.name AS software, techniques
     ORDER BY size(techniques) DESC
     LIMIT 20] *)
Definition B3_group_techniques_via_software (G : Graph) (group : string)
  : list (option string * list string) :=
  let g := Str.toLower group in
  limit 20
    (order_by (desc_by (fun row => zlen (snd row)))
       (map (fun kv => (name (fst kv), collect_distinct (snd kv)))
          (group_by same_node
             (flat_map (fun s =>
                map (fun tech => (s, name tech))
                    (out_of G (is_rel "uses") technique s))
                (flat_map (out_of G (is_rel "uses") software_)
                   (groups_matching G g)))))).

(** [WITH toLower($tech) AS t
     MATCH (tech:Attack {stix_type:'attack-pattern'})
     WHERE toLower(tech.name) CONTAINS t
     MATCH (grp:Attack {stix_type:'intrusion-set'})-[:ATTACK_REL {rel_type:'uses'}]->(tech)
     RETURN tech.name AS technique, collect(DISTINCT grp.name) AS groups
     LIMIT 10] *)
Definition B4_technique_users (G : Graph) (tech : string)
  : list (option string * list string) :=
  let t := Str.toLower tech in
  limit 10
    (map (fun kv => (fst kv, collect_distinct (snd kv)))
       (group_by ostr_eqb
          (flat_map (fun tech =>
             map (fun grp => (name tech, name grp))
                 (into G (is_rel "uses") group_ tech))
             (filter (fun n => technique n && name_contains t n) (nodes G))))).

(** [MATCH (g:Attack {stix_type:'intrusion-set'})-[:ATTACK_REL {rel_type:'uses'}]->(t:Attack {stix_type:'attack-pattern'})
     RETURN g.name AS group, count(DISTINCT t) AS techniques
     ORDER BY techniques DESC LIMIT 20] *)
Definition B5_top_groups_by_techniques (G : Graph) : list (option string * Z) :=
  limit 20
    (order_by (desc_by snd)
       (map (fun kv => (fst kv, zlen (distinct same_node (snd kv))))
          (group_by ostr_eqb
             (flat_map (fun g =>
                map (fun t => (name g, t))
                    (out_of G (is_rel "uses") technique g))
                (filter group_ (nodes G)))))).

(** [-[:ATTACK_REL]-]: one relationship, taken in either direction. *)
Definition other_end (r : Rel) (u : Z) : option Z :=
  if src r =? u then Some (dst r)
  else if dst r =? u then Some (src r)
  else None.

(** The paths of exactly [k] [ATTACK_REL] relationships that leave [u],
    no relationship taken twice ([used] holds those already on the path). *)
Fixpoint trails (G : Graph) (k : nat) (used : list Z) (u : Node)
  : list (list (Rel * Node)) :=
  match k with
  | O => [[]]
  | S k' =>
      flat_map (fun r =>
        if RelKind_eqb (kind r) ATTACK_REL && negb (existsb (Z.eqb (rid r)) used)
        then match other_end r (nid u) with
             | Some i =>
                 match node_at G i with
                 | Some v => map (cons (r, v)) (trails G k' (rid r :: used) v)
                 | None => []
                 end
             | None => []
             end
        else []) (rels G)
  end.

Definition path_end (a : Node) (p : list (Rel * Node)) : Node :=
  last (map snd p) a.

(** [shortestPath((a)-[:ATTACK_REL*..6]-(b))]: lengths 1 to 6 are tried in
    increasing order and the first path found is the answer. *)
Definition shortestPath (G : Graph) (a b : Node) : option Path :=
  match flat_map (fun k =>
          filter (fun p => same_node (path_end a p) b) (trails G k [] a))
          (seq 1 6) with
  | [] => None
  | p :: _ => Some (mkPath a p)
  end.

(** [MATCH (a:Attack {stix_type:'intrusion-set'}), (b:Attack {stix_type:'intrusion-set'})
     WHERE toLower(a.name) CONTAINS toLower($g1) AND toLower(b.name) CONTAINS toLower($g2)
     MATCH p = shortestPath((a)-[:ATTACK_REL*..6]-(b))
     RETURN p]
    A row whose [a] and [b] are the same node has no shortest path to
    offer: the database raises for it when it forbids common end nodes and
    skips the row otherwise. *)
Definition B6_shortest_connection_between_groups
    (E : Engine) (G : Graph) (g1 g2 : string) : QResult (list Path) :=
  let pairs :=
    list_prod (filter (fun a => group_ a && name_contains (Str.toLower g1) a) (nodes G))
              (filter (fun b => group_ b && name_contains (Str.toLower g2) b) (nodes G)) in
  if forbid_common_nodes E && existsb (fun ab => same_node (fst ab) (snd ab)) pairs
  then inl CommonEndNodes
  else inr (flat_map (fun ab =>
              if same_node (fst ab) (snd ab) then []
              else match shortestPath G (fst ab) (snd ab) with
                   | Some p => [p]
                   | None => []
                   end) pairs).

(* ----- Part C ----- *)

Definition by_name {A} (a b : option string * A) : bool :=
  ostr_leb (fst a) (fst b).

(** [WITH toLower($group) AS g
     MATCH (grp:Attack {stix_type:'intrusion-set'}) WHERE toLower(grp.name) CONTAINS g
     MATCH (grp)-[:ATTACK_REL {rel_type:'uses'}]->(tech:Attack {stix_type:'attack-pattern'})
     MATCH (co:Attack {stix_type:'course-of-action'})<-[:ATTACK_REL {rel_type:'mitigates'}]-(tech)
     RETURN tech.name AS technique, collect(DISTINCT co.name) AS mitigations
     ORDER BY technique LIMIT 50]
    The arrow of the last pattern leaves [tech] and arrives at [co]. *)
Definition C1_group_mitigations (G : Graph) (group : string)
  : list (option string * list string) :=
  let g := Str.toLower group in
  limit 50
    (order_by by_name
       (map (fun kv => (fst kv, collect_distinct (snd kv)))
          (group_by ostr_eqb
             (flat_map (fun tech =>
                map (fun co => (name tech, name co))
                    (out_of G (is_rel "mitigates") mitigation tech))
                (techniques_used G g))))).

(** The rows of C2 after [WITH tech, count(co) AS c], before [WHERE c = 0]. *)
Definition mitigation_counts (G : Graph) (g : string) : list (Node * Z) :=
  map (fun kv => (fst kv, count (snd kv)))
    (group_by same_node
       (flat_map (fun tech =>
          map (fun co => (tech, co))
              (optional (out_of G (is_rel "mitigates") mitigation tech)))
          (techniques_used G g))).

(** [... OPTIONAL MATCH (co:Attack {stix_type:'course-of-action'})<-[:ATTACK_REL {rel_type:'mitigates'}]-(tech)
     WITH tech, count(co) AS c WHERE c = 0
     RETURN tech.name AS unmitigated ORDER BY unmitigated LIMIT 50] *)
Definition C2_group_mitigation_gaps (G : Graph) (group : string)
  : list (option string) :=
  let g := Str.toLower group in
  limit 50
    (order_by ostr_leb
       (map (fun tc => name (fst tc))
          (filter (fun tc => snd tc =? 0) (mitigation_counts G g)))).

(** The rows of C3 before [ORDER BY] and [LIMIT]. *)
Definition detection_counts (G : Graph) : list (option string * Z) :=
  map (fun kv => (fst kv, count (snd kv)))
    (group_by ostr_eqb
       (flat_map (fun tech =>
          map (fun dc => (name tech, dc))
              (optional (into G (is_rel "detects") data_component tech)))
          (filter technique (nodes G)))).

(** [MATCH (tech:Attack {stix_type:'attack-pattern'})
     OPTIONAL MATCH (dc:Attack {stix_type:'x-mitre-data-component'})-[:ATTACK_REL {rel_type:'detects'}]->(tech)
     RETURN tech.name AS technique, count(dc) AS detectors
     ORDER BY detectors DESC
     LIMIT $limit]
    LIMIT accepts non-negative integers only. *)
Definition C3_detection_coverage_top (G : Graph) (limit_ : Z)
  : QResult (list (option string * Z)) :=
  if limit_ <? 0 then inl NegativeLimit
  else inr (limit (Z.to_nat limit_) (order_by (desc_by snd) (detection_counts G))).

(** [WITH toLower($tech) AS t
     MATCH (tech:Attack {stix_type:'attack-pattern'}) WHERE toLower(tech.name) CONTAINS t
     OPTIONAL MATCH (dc:Attack {stix_type:'x-mitre-data-component'})-[:ATTACK_REL {rel_type:'detects'}]->(tech)
     OPTIONAL MATCH (ds:Attack {stix_type:'x-mitre-data-source'})-[:ATTACK_REL {rel_type:'detects'}]->(tech)
     RETURN tech.name, collect(DISTINCT dc.name) AS data_components, collect(DISTINCT ds.name) AS data_sources] *)
Definition C4_detections_for_tech (G : Graph) (tech : string)
  : list (option string * list string * list string) :=
  let t := Str.toLower tech in
  map (fun kv => (fst kv,
                  collect_distinct (map fst (snd kv)),
                  collect_distinct (map snd (snd kv))))
    (group_by ostr_eqb
       (flat_map (fun tech =>
          flat_map (fun dc =>
            map (fun ds => (name tech,
                            (match dc with Some n => name n | None => None end,
                             match ds with Some n => name n | None => None end)))
                (optional (into G (is_rel "detects") data_source tech)))
            (optional (into G (is_rel "detects") data_component tech)))
          (filter (fun n => technique n && name_contains t n) (nodes G)))).

(* ----- Part D ----- *)

(** [WITH toLower($tactic) AS tac
     MATCH (t:Attack {stix_type:'x-mitre-tactic'})
     WHERE toLower(t.shortname) = tac OR toLower(t.name) CONTAINS tac
     MATCH (tech:Attack {stix_type:'attack-pattern'})-[:IN_TACTIC]->(t)
     RETURN t.shortname AS tactic, collect(tech.name)[0..25] AS sample_techniques, count(tech) AS total] *)
Definition D1_tactic_mapping (G : Graph) (tactic : string)
  : list (option string * list string * Z) :=
  let tac := Str.toLower tactic in
  map (fun kv => (fst kv, firstn 25 (collect (snd kv)), zlen (snd kv)))
    (group_by ostr_eqb
       (flat_map (fun t =>
          map (fun tech => (shortname t, name tech))
              (into G in_tactic technique t))
          (filter (fun t =>
             tactic_ t &&
             (match shortname t with
              | Some s => String.eqb (Str.toLower s) tac
              | None => false
              end || name_contains tac t)) (nodes G)))).

(** [MATCH (sub:Attack {stix_type:'attack-pattern'})-[:ATTACK_REL {rel_type:'subtechnique-of'}]->(parent:Attack {stix_type:'attack-pattern'})
     RETURN parent.name AS technique, collect(sub.name) AS subtechniques
     ORDER BY size(subtechniques) DESC
     LIMIT 20] *)
Definition D2_subtechniques (G : Graph) : list (option string * list string) :=
  limit 20
    (order_by (desc_by (fun row => zlen (snd row)))
       (map (fun kv => (fst kv, collect (snd kv)))
          (group_by ostr_eqb
             (flat_map (fun sub =>
                map (fun parent => (name parent, name sub))
                    (out_of G (is_rel "subtechnique-of") technique sub))
                (filter technique (nodes G)))))).

Definition coalesce_nil (o : option (list string)) : list string :=
  match o with Some l => l | None => [] end.

Definition platform_labels : list string :=
  ["windows"; "linux"; "macos"; "azure"; "aws"; "gcp"; "saas"; "office 365";
   "network"].

Definition domain_labels : list string :=
  ["enterprise-attack"; "mobile-attack"; "ics-attack"].

(** [UNWIND [...] AS platform
     MATCH (tech:Attack {stix_type:'attack-pattern'})
     WHERE platform IN [p IN coalesce(tech.platforms,[]) | toLower(p)]
     RETURN platform, count(tech) AS technique_count
     ORDER BY technique_count DESC] *)
Definition D3_techniques_by_platform (G : Graph) : list (string * Z) :=
  order_by (desc_by snd)
    (map (fun kv => (fst kv, zlen (snd kv)))
       (group_by String.eqb
          (flat_map (fun platform =>
             map (fun tech => (platform, tech))
               (filter (fun tech =>
                  technique tech &&
                  existsb (String.eqb platform)
                    (map Str.toLower (coalesce_nil (platforms tech))))
                  (nodes G)))
             platform_labels))).

(** [UNWIND [...] AS dom
     MATCH (n:Attack)
     WHERE dom IN [d IN coalesce(n.domains,[]) | toLower(d)]
     RETURN dom AS domain, count(n) AS nodes
     ORDER BY nodes DESC] *)
Definition D4_domain_breakdown (G : Graph) : list (string * Z) :=
  order_by (desc_by snd)
    (map (fun kv => (fst kv, zlen (snd kv)))
       (group_by String.eqb
          (flat_map (fun dom =>
             map (fun n => (dom, n))
               (filter (fun n =>
                  attack n &&
                  existsb (String.eqb dom)
                    (map Str.toLower (coalesce_nil (domains n))))
                  (nodes G)))
             domain_labels))).

(** [datetime() - duration({days:$days})] *)
Definition cutoff (E : Engine) (days : Z) : Z := now E - days * day_ms.

(** The rows of D5 before [ORDER BY] and [LIMIT]. *)
Definition recent (E : Engine) (G : Graph) (days : Z) : list (option string * Z) :=
  flat_map (fun t =>
    match modified t with
    | Some m => if cutoff E days <=? m then [(name t, m)] else []
    | None => []
    end) (filter technique (nodes G)).

(** [MATCH (t:Attack {stix_type:'attack-pattern'})
     WHERE t.modified >= datetime() - duration({days:$days})
     RETURN t.name AS technique, t.modified
     ORDER BY t.modified DESC
     LIMIT 25] *)
Definition D5_recently_modified (E : Engine) (G : Graph) (recent_days : Z)
  : list (option string * Z) :=
  limit 25 (order_by (desc_by snd) (recent E G recent_days)).

(* ----- Part E ----- *)

(** [WITH toLower($software) AS q
     MATCH (s:Attack) WHERE s.stix_type IN ['tool','malware'] AND toLower(s.name) CONTAINS q
     OPTIONAL MATCH (g:Attack {stix_type:'intrusion-set'})-[:ATTACK_REL {rel_type:'uses'}]->(s)
     OPTIONAL MATCH (s)-[:ATTACK_REL {rel_type:'uses'}]->(tech:Attack {stix_type:'attack-pattern'})
     RETURN s.name AS software, collect(DISTINCT g.name) AS groups, collect(DISTINCT tech.name)[0..25] AS techniques] *)
Definition E3_software_pivot (G : Graph) (software : string)
  : list (option string * list string * list string) :=
  let q := Str.toLower software in
  map (fun kv => (fst kv,
                  collect_distinct (map fst (snd kv)),
                  firstn 25 (collect_distinct (map snd (snd kv)))))
    (group_by ostr_eqb
       (flat_map (fun s =>
          flat_map (fun g =>
            map (fun tech => (name s,
                              (match g with Some n => name n | None => None end,
                               match tech with Some n => name n | None => None end)))
                (optional (out_of G (is_rel "uses") technique s)))
            (optional (into G (is_rel "uses") group_ s)))
          (filter (fun s => software_ s && name_contains q s) (nodes G)))).

End Cypher.


(* ===================================================================== *)
(** ** Records and the result materializer *)

Inductive Value :=
| VNull
| VInt (z : Z)
| VStr (s : string)
| VList (l : list Value)
| VInstant (ms : Z)
| VPath (p : Path).

(** One record of a result: output-column name to value, in RETURN order. *)
Definition Record_ : Type := list (string * Value).

Definition vstr (o : option string) : Value :=
  match o with Some s => VStr s | None => VNull end.

Definition vlist (l : list string) : Value := VList (map VStr l).

(** A table: its column labels and, per row, one cell per column; a cell
    is [None] where the row's record has no such key. *)
Record DataFrame := mkDataFrame {
  columns : list string;
  data : list (list (option Value))
}.

Definition get (r : Record_) (c : string) : option Value :=
  option_map snd (find (fun kv => String.eqb (fst kv) c) r).

(** [pd.DataFrame(rows)] for a list of dicts: the columns are the keys in
    order of first appearance. *)
Definition DataFrame_of (rows : list Record_) : DataFrame :=
  let cols := distinct String.eqb (flat_map (map fst) rows) in
  mkDataFrame cols (map (fun r => map (get r) cols) rows).

(** What [s.run] hands back: the records the cursor delivers and, when the
    database fails while they are fetched, the failure that ends them. *)
Record Result := mkResult {
  records : list Record_;
  failure : option Error
}.

Definition df_from_result (result : Result) : QResult DataFrame :=
  match failure result with
  | Some e => inl e                       (* raised inside the comprehension *)
  | None => inr (DataFrame_of (records result))
  end.

(* ===================================================================== *)
(** ** Query texts with their bound parameters, and the database *)

Inductive Query :=
| Q_A1_nodes | Q_A1_relationships | Q_A2 | Q_A3 | Q_A4 | Q_A5
| Q_B1 (group : string) | Q_B2 (group : string) | Q_B3 (group : string)
| Q_B4 (tech : string) | Q_B5 | Q_B6 (g1 g2 : string)
| Q_C1 (group : string) | Q_C2 (group : string) | Q_C3 (limit_ : Z)
| Q_C4 (tech : string)
| Q_D1 (tactic : string) | Q_D2 | Q_D3 | Q_D4 | Q_D5 (days : Z)
| Q_E3 (software : string).

Definition rec2 {A B} (c1 c2 : string) (f1 : A -> Value) (f2 : B -> Value)
  (row : A * B) : Record_ :=
  [(c1, f1 (fst row)); (c2, f2 (snd row))].

Definition rec3 {A B C} (c1 c2 c3 : string)
  (f1 : A -> Value) (f2 : B -> Value) (f3 : C -> Value)
  (row : A * B * C) : Record_ :=
  [(c1, f1 (fst (fst row))); (c2, f2 (snd (fst row))); (c3, f3 (snd row))].

(** The records the database returns for a query text on graph [G]. *)
Definition run (E : Engine) (G : Graph) (q : Query) : QResult (list Record_) :=
  match q with
  | Q_A1_nodes =>
      inr (map (fun n => [("nodes", VInt n)]) (fst (Cypher.A1_counts G)))
  | Q_A1_relationships =>
      inr (map (fun n => [("relationships", VInt n)]) (snd (Cypher.A1_counts G)))
  | Q_A2 => inr (map (rec2 "type" "n" vstr VInt) (Cypher.A2_object_types G))
  | Q_A3 => inr (map (rec2 "rel_type" "n" vstr VInt) (Cypher.A3_relationship_types G))
  | Q_A4 => inr (map (rec2 "tactic" "techniques" vstr VInt)
                   (Cypher.A4_tactic_technique_counts G))
  | Q_A5 => inr (map (rec2 "inactive" "active" VInt VInt)
                   (Cypher.A5_active_vs_inactive G))
  | Q_B1 g => inr (map (rec2 "tactic" "technique" vstr vstr)
                     (Cypher.B1_group_techniques G g))
  | Q_B2 g => inr (map (rec2 "kind" "software" vstr vstr)
                     (Cypher.B2_group_software G g))
  | Q_B3 g => inr (map (rec2 "software" "techniques" vstr vlist)
                     (Cypher.B3_group_techniques_via_software G g))
  | Q_B4 t => inr (map (rec2 "technique" "groups" vstr vlist)
                     (Cypher.B4_technique_users G t))
  | Q_B5 => inr (map (rec2 "group" "techniques" vstr VInt)
                   (Cypher.B5_top_groups_by_techniques G))
  | Q_B6 g1 g2 =>
      match Cypher.B6_shortest_connection_between_groups E G g1 g2 with
      | inl e => inl e
      | inr ps => inr (map (fun p => [("p", VPath p)]) ps)
      end
  | Q_C1 g => inr (map (rec2 "technique" "mitigations" vstr vlist)
                     (Cypher.C1_group_mitigations G g))
  | Q_C2 g => inr (map (fun u => [("unmitigated", vstr u)])
                     (Cypher.C2_group_mitigation_gaps G g))
  | Q_C3 l =>
      match Cypher.C3_detection_coverage_top G l with
      | inl e => inl e
      | inr rows => inr (map (rec2 "technique" "detectors" vstr VInt) rows)
      end
  | Q_C4 t => inr (map (rec3 "tech.name" "data_components" "data_sources"
                          vstr vlist vlist)
                     (Cypher.C4_detections_for_tech G t))
  | Q_D1 t => inr (map (rec3 "tactic" "sample_techniques" "total" vstr vlist VInt)
                     (Cypher.D1_tactic_mapping G t))
  | Q_D2 => inr (map (rec2 "technique" "subtechniques" vstr vlist)
                   (Cypher.D2_subtechniques G))
  | Q_D3 => inr (map (rec2 "platform" "technique_count" VStr VInt)
                   (Cypher.D3_techniques_by_platform G))
  | Q_D4 => inr (map (rec2 "domain" "nodes" VStr VInt)
                   (Cypher.D4_domain_breakdown G))
  | Q_D5 d => inr (map (rec2 "technique" "t.modified" vstr VInstant)
                     (Cypher.D5_recently_modified E G d))
  | Q_E3 s => inr (map (rec3 "software" "groups" "techniques" vstr vlist vlist)
                     (Cypher.E3_software_pivot G s))
  end.

(* ===================================================================== *)
(** ** Sessions and the executor *)

Inductive Event :=
| Acquired (s : nat)
| Ran (s : nat) (q : Query)
| Released (s : nat).

Record World := mkWorld {
  open_sessions : list nat;
  next_session : nat;
  trace : list Event
}.

(** How the database answers [s.run(q, **params)]. *)
Inductive Response :=
| RunFails (e : Error)
| Answers (r : Result).

(** The driver handle: whether [driver.session()] fails, and the answers. *)
Record Driver := mkDriver {
  session_fails : option Error;
  respond : Query -> Response
}.

(** A computation that reads and changes the world and may raise. *)
Definition M (A : Type) : Type := World -> QResult A * World.

Definition ret {A} (x : A) : M A := fun w => (inr x, w).
Definition raise {A} (e : Error) : M A := fun w => (inl e, w).
Definition bind {A B} (m : M A) (k : A -> M B) : M B :=
  fun w => match m w with
           | (inl e, w') => (inl e, w')
           | (inr x, w') => k x w'
           end.

Notation "x <- m ;; k" := (bind m (fun x => k))
  (at level 61, m at next level, right associativity).

Definition lift {A} (r : QResult A) : M A := fun w => (r, w).

Definition log (e : Event) : M unit :=
  fun w => (inr tt, mkWorld (open_sessions w) (next_session w) (trace w ++ [e])).

Fixpoint remove_first (s : nat) (l : list nat) : list nat :=
  match l with
  | [] => []
  | x :: r => if Nat.eqb x s then r else x :: remove_first s r
  end.

Definition close (s : nat) (w : World) : World :=
  mkWorld (remove_first s (open_sessions w)) (next_session w)
          (trace w ++ [Released s]).

(** [with driver.session() as s: body]: the session is entered, the body
    runs, and the session's exit runs whether the body returned or raised;
    the body's outcome is the outcome of the block. *)
Definition with_session {A} (d : Driver) (body : nat -> M A) : M A :=
  fun w =>
    match session_fails d with
    | Some e => (inl e, w)
    | None =>
        let s := next_session w in
        let w1 := mkWorld (s :: open_sessions w) (S s) (trace w ++ [Acquired s]) in
        let (r, w2) := body s w1 in
        (r, close s w2)
    end.

Definition session_run (d : Driver) (s : nat) (q : Query) : M Result :=
  _ <- log (Ran s q) ;;
  match respond d q with
  | RunFails e => raise e
  | Answers r => ret r
  end.

(** The database of the model: graph [G] queried through engine [E]. *)
Definition neo4j (E : Engine) (G : Graph) : Driver :=
  mkDriver None
    (fun q => match run E G q with
              | inl e => RunFails e
              | inr recs => Answers (mkResult recs None)
              end).

Module AttackKG.

Definition query (d : Driver) (q : Query) : M DataFrame :=
  with_session d (fun s =>
    res <- session_run d s q ;;
    lift (df_from_result res)).

Definition A1_counts d : M (DataFrame * DataFrame) :=
  n <- query d Q_A1_nodes ;; r <- query d Q_A1_relationships ;; ret (n, r).
Definition A2_object_types d := query d Q_A2.
Definition A3_relationship_types d := query d Q_A3.
Definition A4_tactic_technique_counts d := query d Q_A4.
Definition A5_active_vs_inactive d := query d Q_A5.
Definition B1_group_techniques d group := query d (Q_B1 group).
Definition B2_group_software d group := query d (Q_B2 group).
Definition B3_group_techniques_via_software d group := query d (Q_B3 group).
Definition B4_technique_users d tech := query d (Q_B4 tech).
Definition B5_top_groups_by_techniques d := query d Q_B5.
Definition B6_shortest_connection_between_groups d g1 g2 := query d (Q_B6 g1 g2).
Definition C1_group_mitigations d group := query d (Q_C1 group).
Definition C2_group_mitigation_gaps d group := query d (Q_C2 group).
Definition C3_detection_coverage_top d limit_ := query d (Q_C3 limit_).
Definition C4_detections_for_tech d tech := query d (Q_C4 tech).
Definition D1_tactic_mapping d tactic := query d (Q_D1 tactic).
Definition D2_subtechniques d := query d Q_D2.
Definition D3_techniques_by_platform d := query d Q_D3.
Definition D4_domain_breakdown d := query d Q_D4.
Definition D5_recently_modified d recent_days := query d (Q_D5 recent_days).
Definition E3_software_pivot d software := query d (Q_E3 software).

End AttackKG.


(** The column names of each catalog entry, as its RETURN clause gives them. *)
Definition columns_of (q : Query) : list string :=
  match q with
  | Q_A1_nodes => ["nodes"]
  | Q_A1_relationships => ["relationships"]
  | Q_A2 => ["type"; "n"]
  | Q_A3 => ["rel_type"; "n"]
  | Q_A4 => ["tactic"; "techniques"]
  | Q_A5 => ["inactive"; "active"]
  | Q_B1 _ => ["tactic"; "technique"]
  | Q_B2 _ => ["kind"; "software"]
  | Q_B3 _ => ["software"; "techniques"]
  | Q_B4 _ => ["technique"; "groups"]
  | Q_B5 => ["group"; "techniques"]
  | Q_B6 _ _ => ["p"]
  | Q_C1 _ => ["technique"; "mitigations"]
  | Q_C2 _ => ["unmitigated"]
  | Q_C3 _ => ["technique"; "detectors"]
  | Q_C4 _ => ["tech.name"; "data_components"; "data_sources"]
  | Q_D1 _ => ["tactic"; "sample_techniques"; "total"]
  | Q_D2 => ["technique"; "subtechniques"]
  | Q_D3 => ["platform"; "technique_count"]
  | Q_D4 => ["domain"; "nodes"]
  | Q_D5 _ => ["technique"; "t.modified"]
  | Q_E3 _ => ["software"; "groups"; "techniques"]
  end.





(** Reference quantities the properties below are stated with. *)

(** The [detects] relations that arrive at the techniques named [x] from
    data components, one per relation. *)
Definition detects_onto (G : Graph) (x : option string) : Z :=
  fold_right Z.add 0
    (map (fun t => Cypher.zlen (into G (is_rel "detects") Cypher.data_component t))
       (filter (fun t => Cypher.technique t && ostr_eqb x (name t)) (nodes G))).

(** The distinct data components with a [detects] relation onto [t]. *)
Definition distinct_detectors (G : Graph) (t : Node) : Z :=
  Cypher.zlen
    (distinct same_node (into G (is_rel "detects") Cypher.data_component t)).

(** Fixtures. *)
Definition sample_node (i : Z) (t n : string) : Node :=
  mkNode i true (Some t) (Some n) None None None None None None.

Definition sample_world : World := mkWorld [] 0 [].
Definition sample_engine : Engine := mkEngine 0 true.

(** One technique detected through two parallel relations from the same
    data component. *)
Definition parallel_detects : Graph :=
  mkGraph [sample_node 1 "attack-pattern" "T1003";
           sample_node 2 "x-mitre-data-component" "Process Creation"]
          [mkRel 1 ATTACK_REL (Some "detects") 2 1;
           mkRel 2 ATTACK_REL (Some "detects") 2 1].

(** Two techniques of the same name, only the first one detected. *)
Definition homonyms : Graph :=
  mkGraph [sample_node 1 "attack-pattern" "Domain Accounts";
           sample_node 2 "attack-pattern" "Domain Accounts";
           sample_node 3 "x-mitre-data-component" "Process Creation"]
          [mkRel 1 ATTACK_REL (Some "detects") 3 1].


(** A group with a technique mitigated the way ATT&CK records it: the
    course of action is the source of [mitigates], the technique its target. *)
Definition mitigated_technique : Graph :=
  mkGraph [sample_node 1 "intrusion-set" "APT29";
           sample_node 2 "attack-pattern" "T1003";
           sample_node 3 "course-of-action" "Privileged Account Management"]
          [mkRel 1 ATTACK_REL (Some "uses") 1 2;
           mkRel 2 ATTACK_REL (Some "mitigates") 3 2].



(** A walk over [ATTACK_REL] relationships, each taken in either direction:
    [walk G u steps] leaves [u] and visits the nodes of [steps] in turn. *)
Inductive walk (G : Graph) : Node -> list (Rel * Node) -> Prop :=
| walk_nil u : walk G u []
| walk_cons u r v steps :
    In r (rels G) ->
    kind r = ATTACK_REL ->
    (src r = nid u /\ dst r = nid v \/ dst r = nid u /\ src r = nid v) ->
    node_at G (nid v) = Some v ->
    walk G v steps ->
    walk G u ((r, v) :: steps).


(** [a] is a group the filter [f] selects. *)
Definition matches (G : Graph) (f : string) (a : Node) : Prop :=
  In a (nodes G) /\ Cypher.group_ a = true /\
  name_contains (Str.toLower f) a = true.




(** Two groups and a technique only the first of them uses. *)
Definition unconnected_groups : Graph :=
  mkGraph [sample_node 1 "intrusion-set" "APT29";
           sample_node 2 "intrusion-set" "FIN7";
           sample_node 3 "attack-pattern" "T1003"]
          [mkRel 1 ATTACK_REL (Some "uses") 1 3].

(** [a] may come before [b] under the ordering test [leb]. *)
Definition precedes {A} (leb : A -> A -> bool) (a b : A) : Prop :=
  leb a b = true.

(** Closes the goal that all records of a query carry the same keys. *)
Ltac same_keys :=
  first [ rewrite Forall_map; apply Forall_forall; intros; reflexivity
        | solve [repeat (constructor; try reflexivity)] ].

(** Two techniques around the recency cutoff: with the clock at day 200 and
    a window of 180 days the cutoff is the instant 1 728 000 000; one
    technique was modified at that instant, the other a millisecond before. *)
Definition recency_engine : Engine := mkEngine (200 * day_ms) true.

Definition recency_boundary : Graph :=
  mkGraph [mkNode 1 true (Some "attack-pattern") (Some "at the cutoff")
                  None None None None None (Some 1728000000);
           mkNode 2 true (Some "attack-pattern") (Some "just before")
                  None None None None None (Some 1727999999)]
          [].

(** Reference quantities for the graph statistics. *)

(** The [:Attack] nodes whose [stix_type] is [ty] ([None]: the property is
    absent). *)
Definition type_count (G : Graph) (ty : option string) : Z :=
  Cypher.zlen (filter (fun n => attack n && ostr_eqb ty (stix_type n)) (nodes G)).

(** A technique counts as inactive when [deprecated] or [revoked] is set to
    true; a missing flag is false. *)
Definition inactive (t : Node) : bool :=
  Cypher.coalesce_false (deprecated t) || Cypher.coalesce_false (revoked t).

(** More fixtures. *)

(** A group using one technique that belongs to no tactic. *)
Definition tactic_less : Graph :=
  mkGraph [sample_node 1 "intrusion-set" "APT29";
           sample_node 2 "attack-pattern" "T1003"]
          [mkRel 1 ATTACK_REL (Some "uses") 1 2].

(** The distinct techniques used by the groups named [x]. *)
Definition techniques_of_groups_named (G : Graph) (x : option string) : list Node :=
  distinct same_node
    (flat_map (out_of G (is_rel "uses") Cypher.technique)
       (filter (fun g => Cypher.group_ g && ostr_eqb x (name g)) (nodes G))).

(** [t] is a technique the filter [f] selects. *)
Definition technique_matching (G : Graph) (f : string) (t : Node) : Prop :=
  In t (nodes G) /\ Cypher.technique t = true /\
  name_contains (Str.toLower f) t = true.




(** [label IN [p IN coalesce(labels,[]) | toLower(p)]] *)
Definition carries (label : string) (labels : option (list string)) : bool :=
  existsb (String.eqb label) (map Str.toLower (Cypher.coalesce_nil labels)).

(** [s] is a software entity the filter [f] selects. *)
Definition software_matching (G : Graph) (f : string) (s : Node) : Prop :=
  In s (nodes G) /\ Cypher.software_ s = true /\
  name_contains (Str.toLower f) s = true.

(** A tool that uses one technique and that no group uses. *)
Definition lone_software : Graph :=
  mkGraph [sample_node 1 "tool" "Mimikatz";
           sample_node 2 "attack-pattern" "Credential Dumping"]
          [mkRel 1 ATTACK_REL (Some "uses") 1 2].

(* ===================================================================== *)
(** ** The demonstration driver *)

Module DEFAULTS.
Definition group : string := "APT29".
Definition tech : string := "Credential Dumping".
Definition tactic : string := "defense-evasion".
Definition g1 : string := "APT29".
Definition g2 : string := "FIN7".
Definition software : string := "Mimikatz".
Definition recent_days : Z := 180.
End DEFAULTS.

(** What the demonstration leaves behind besides the sessions' world: the
    lines it printed and how often it closed the driver. *)
Record Console := mkConsole {
  world : World;
  printed : list string;
  closes : nat
}.

Definition P (A : Type) : Type := Console -> QResult A * Console.

Definition retP {A} (x : A) : P A := fun c => (inr x, c).
Definition bindP {A B} (m : P A) (k : A -> P B) : P B :=
  fun c => match m c with
           | (inl e, c') => (inl e, c')
           | (inr x, c') => k x c'
           end.

(** A method of [AttackKG] called from the demonstration. *)
Definition call {A} (m : M A) : P A :=
  fun c => let (r, w') := m (world c) in
           (r, mkConsole w' (printed c) (closes c)).

Definition print (line : string) : P unit :=
  fun c => (inr tt, mkConsole (world c) (printed c ++ [line]) (closes c)).

(** [df.empty]: some axis of the table has length zero. *)
Definition empty (df : DataFrame) : bool :=
  match columns df, data df with
  | [], _ => true
  | _, [] => true
  | _, _ => false
  end.

(** The header line; the source writes a backslash followed by [n] in
    front of it, and those two characters are what is printed. *)
Definition header (title : string) : string :=
  ("\n=== " ++ title ++ " ===")%string.

(** [_print_section]; [to_string] stands for the table rendering
    [df.to_string(index=False)] under the display options of the source. *)
Definition _print_section (to_string : DataFrame -> string)
    (title : string) (df : option DataFrame) : P unit :=
  bindP (print (header title)) (fun _ =>
  match df with
  | None => print "(no results)"
  | Some df => if empty df then print "(empty)" else print (to_string df)
  end).

(** [try: body finally: fin] *)
Definition try_finally {A} (body : P A) (fin : P unit) : P A :=
  fun c => let (r, c1) := body c in
           match fin c1 with
           | (inl e, c2) => (inl e, c2)
           | (inr _, c2) => (r, c2)
           end.

(** [atk.close()] *)
Definition close_driver : P unit :=
  fun c => (inr tt, mkConsole (world c) (printed c) (S (closes c))).

(** One line of the demonstration: the method is called, then its table is
    printed under [title]. *)
Definition section_ (to_string : DataFrame -> string) (title : string)
    (m : M DataFrame) : P unit :=
  bindP (call m) (fun df => _print_section to_string title (Some df)).

(** The dash of the two A1 titles, U+2014 in UTF-8. *)
Definition em_dash : string :=
  String (ascii_of_nat 226) (String (ascii_of_nat 128)
    (String (ascii_of_nat 148) EmptyString)).

(** [demo], from the [try] on: the driver handle [d] is the one
    [AttackKG()] has built. *)
Definition demo (to_string : DataFrame -> string) (d : Driver) : P unit :=
  let say := section_ to_string in
  try_finally
    (bindP (call (AttackKG.A1_counts d)) (fun dfs =>
     bindP (_print_section to_string ("A1 counts " ++ em_dash ++ " nodes")
              (Some (fst dfs))) (fun _ =>
     bindP (_print_section to_string ("A1 counts " ++ em_dash ++ " relationships")
              (Some (snd dfs))) (fun _ =>
     bindP (say "A2 object types" (AttackKG.A2_object_types d)) (fun _ =>
     bindP (say "A3 relationship types" (AttackKG.A3_relationship_types d)) (fun _ =>
     bindP (say "A4 tactic -> technique counts"
              (AttackKG.A4_tactic_technique_counts d)) (fun _ =>
     bindP (say "A5 techniques active vs inactive"
              (AttackKG.A5_active_vs_inactive d)) (fun _ =>
     bindP (say "B1 techniques used by group"
              (AttackKG.B1_group_techniques d DEFAULTS.group)) (fun _ =>
     bindP (say "B2 software used by group"
              (AttackKG.B2_group_software d DEFAULTS.group)) (fun _ =>
     bindP (say "B3 techniques via software"
              (AttackKG.B3_group_techniques_via_software d DEFAULTS.group)) (fun _ =>
     bindP (say "B4 groups that use a technique"
              (AttackKG.B4_technique_users d DEFAULTS.tech)) (fun _ =>
     bindP (say "B5 top groups by techniques"
              (AttackKG.B5_top_groups_by_techniques d)) (fun _ =>
     bindP (say "B6 shortest connection between groups"
              (AttackKG.B6_shortest_connection_between_groups d
                 DEFAULTS.g1 DEFAULTS.g2)) (fun _ =>
     bindP (say "C1 mitigations for group's techniques"
              (AttackKG.C1_group_mitigations d DEFAULTS.group)) (fun _ =>
     bindP (say "C2 mitigation gaps"
              (AttackKG.C2_group_mitigation_gaps d DEFAULTS.group)) (fun _ =>
     bindP (say "C3 detection coverage (top techniques)"
              (AttackKG.C3_detection_coverage_top d 25)) (fun _ =>
     bindP (say "C4 data components/sources for technique"
              (AttackKG.C4_detections_for_tech d DEFAULTS.tech)) (fun _ =>
     bindP (say "D1 tactic mapping"
              (AttackKG.D1_tactic_mapping d DEFAULTS.tactic)) (fun _ =>
     bindP (say "D2 parent -> subtechniques" (AttackKG.D2_subtechniques d)) (fun _ =>
     bindP (say "D3 techniques by platform"
              (AttackKG.D3_techniques_by_platform d)) (fun _ =>
     bindP (say "D4 domain breakdown" (AttackKG.D4_domain_breakdown d)) (fun _ =>
     bindP (say "D5 recently modified techniques"
              (AttackKG.D5_recently_modified d DEFAULTS.recent_days)) (fun _ =>
     say "E3 software pivot"
         (AttackKG.E3_software_pivot d DEFAULTS.software))))))))))))))))))))))))
    close_driver.

(** The queries of the demonstration, in the order it issues them. *)
Definition demo_queries : list Query :=
  [Q_A1_nodes; Q_A1_relationships; Q_A2; Q_A3; Q_A4; Q_A5;
   Q_B1 "APT29"; Q_B2 "APT29"; Q_B3 "APT29"; Q_B4 "Credential Dumping"; Q_B5;
   Q_B6 "APT29" "FIN7";
   Q_C1 "APT29"; Q_C2 "APT29"; Q_C3 25; Q_C4 "Credential Dumping";
   Q_D1 "defense-evasion"; Q_D2; Q_D3; Q_D4; Q_D5 180; Q_E3 "Mimikatz"].

(** The queries a trace records as run. *)
Definition ran_queries (tr : list Event) : list Query :=
  flat_map (fun e => match e with Ran _ q => [q] | _ => [] end) tr.

(** [c'] is [c] after the queries [qs] were run, with no session left open
    and the driver not closed in between. *)
Definition after (c : Console) (qs : list Query) (c' : Console) : Prop :=
  ran_queries (trace (world c')) = (ran_queries (trace (world c)) ++ qs)%list /\
  open_sessions (world c') = open_sessions (world c) /\
  closes c' = closes c.

(** [m] issues the queries [qs] in order and stops at the first failure:
    from any console it runs a prefix of [qs], the whole of it when it
    succeeds. *)
Definition runs {A} (m : P A) (qs : list Query) : Prop :=
  forall c, exists k,
    (k <= List.length qs)%nat /\
    after c (firstn k qs) (snd (m c)) /\
    (forall x, fst (m c) = inr x -> k = List.length qs).

(** Empties the first scan of the nodes in the goal when no node carries
    the label [:Attack]; [lem] states that a filter nothing passes is
    empty, [H] that no node carries the label. *)
Ltac no_attack lem H :=
  match goal with
  | |- context [filter ?p (nodes ?G)] =>
      rewrite (lem Node p (nodes G));
      [|let n := fresh "n" in let Hn := fresh "Hn" in
        intros n Hn;
        unfold Cypher.technique, Cypher.group_, Cypher.tactic_,
          Cypher.mitigation, Cypher.software_, has_type;
        rewrite (H n Hn); reflexivity]
  end.

(** The [IN_TACTIC] memberships of the tactics whose [shortname] is [x],
    one entry per relationship that leaves a technique. *)
Definition memberships (G : Graph) (x : option string) : list Node :=
  flat_map (into G Cypher.in_tactic Cypher.technique)
    (filter (fun t => Cypher.tactic_ t && ostr_eqb x (shortname t)) (nodes G)).

(** Two groups using the same technique. *)
Definition shared_technique : Graph :=
  mkGraph [sample_node 1 "intrusion-set" "APT29";
           sample_node 2 "intrusion-set" "FIN7";
           sample_node 3 "attack-pattern" "T1003"]
          [mkRel 1 ATTACK_REL (Some "uses") 1 3;
           mkRel 2 ATTACK_REL (Some "uses") 2 3].

(** The node identifiers a walk visits, its start included. *)
Definition visited (u : Node) (steps : list (Rel * Node)) : list Z :=
  nid u :: map (fun s => nid (snd s)) steps.

(* ===================================================================== *)
(** * Properties *)

(** ** Facts about the clauses *)

Lemma filter_comm A (p q : A -> bool) l :
  filter p (filter q l) = filter q (filter p l).
Proof.
  induction l as [|x l IH]; simpl; [reflexivity|].
  destruct (p x) eqn:Hp, (q x) eqn:Hq; simpl; rewrite ?Hp, ?Hq, IH; reflexivity.
Qed.

Lemma filter_absorb A (p q : A -> bool) l :
  (forall x, p x = true -> q x = true) ->
  filter p (filter q l) = filter p l.
Proof.
  intros H. induction l as [|x l IH]; simpl; [reflexivity|].
  destruct (p x) eqn:Hp.
  - rewrite (H _ Hp). simpl. now rewrite Hp, IH.
  - destruct (q x); simpl; rewrite ?Hp; exact IH.
Qed.

Section DistinctFacts.
Variable K : Type.
Variable eqb : K -> K -> bool.
Hypothesis eqb_refl : forall a, eqb a a = true.
Hypothesis eqb_sym : forall a b, eqb a b = eqb b a.
Hypothesis eqb_trans : forall a b c, eqb a b = true -> eqb b c = true -> eqb a c = true.

Lemma eqb_congr_l a b c : eqb a b = true -> eqb a c = eqb b c.
Proof.
  intros Hab. destruct (eqb b c) eqn:Hbc.
  - eauto.
  - destruct (eqb a c) eqn:Hac; [|reflexivity].
    rewrite eqb_sym in Hab. rewrite <- Hbc. symmetry. eauto.
Qed.

Lemma distinct_filter (p : K -> bool) l :
  (forall a b, eqb a b = true -> p a = p b) ->
  distinct eqb (filter p l) = filter p (distinct eqb l).
Proof.
  intros Hp. induction l as [|x l IH]; simpl; [reflexivity|].
  destruct (p x) eqn:Hx; simpl; rewrite ?Hx, IH.
  - f_equal. apply filter_comm.
  - symmetry. apply filter_absorb. intros y Hy.
    destruct (eqb x y) eqn:Hxy; [|reflexivity].
    rewrite <- (Hp _ _ Hxy), Hx in Hy. discriminate.
Qed.

Lemma distinct_incl l x : In x (distinct eqb l) -> In x l.
Proof.
  revert x. induction l as [|y l IH]; simpl; intros x Hx; [exact Hx|].
  destruct Hx as [Hx|Hx]; [now left|].
  apply filter_In in Hx. right. apply IH, Hx.
Qed.

Lemma distinct_covers l x :
  In x l -> exists y, In y (distinct eqb l) /\ eqb y x = true.
Proof.
  induction l as [|z l IH]; simpl; intros Hx; [contradiction|].
  destruct Hx as [->|Hx].
  - exists x. auto.
  - destruct (IH Hx) as (y & Hy & Hyx).
    destruct (eqb z y) eqn:Hzy.
    + exists z. split; [now left|]. eauto.
    + exists y. split; [|exact Hyx]. right. apply filter_In.
      rewrite Hzy. auto.
Qed.

Lemma distinct_apart l :
  ForallOrdPairs (fun a b => eqb a b = false) (distinct eqb l).
Proof.
  induction l as [|x l IH]; simpl; constructor.
  - apply Forall_forall. intros y Hy. apply filter_In in Hy.
    destruct Hy as [_ Hy]. now apply negb_true_iff in Hy.
  - clear -IH. induction IH as [|y r Hy Hr IHr]; simpl; [constructor|].
    destruct (negb (eqb x y)); [|exact IHr].
    constructor; [|exact IHr].
    apply Forall_forall. intros z Hz. apply filter_In in Hz.
    rewrite Forall_forall in Hy. apply Hy, Hz.
Qed.

(** The groups partition the rows: their sizes add up to the number of rows. *)
Lemma group_sizes V (rows : list (K * V)) :
  fold_right Z.add 0
    (map (fun kv => Z.of_nat (List.length (snd kv))) (group_by eqb rows))
  = Z.of_nat (List.length rows).
Proof.
  unfold group_by. rewrite map_map. cbn [snd].
  pose (F := fun (rs : list (K * V)) (k : K) =>
               Z.of_nat (List.length (map snd (filter (fun r => eqb k (fst r)) rs)))).
  change (fold_right Z.add 0 (map (F rows) (distinct eqb (map fst rows)))
          = Z.of_nat (List.length rows)).
  assert (Hle : (List.length rows <= List.length rows)%nat) by lia.
  revert Hle. generalize (List.length rows) at 2. intros n.
  revert rows.
  induction n as [|n IH]; intros rows Hle.
  { destruct rows; [reflexivity|simpl in Hle; lia]. }
  destruct rows as [|[k v] rows]; [reflexivity|].
  cbn [map fst distinct fold_right].
  set (keep := fun r : K * V => negb (eqb k (fst r))).
  assert (Hkeys : filter (fun y => negb (eqb k y)) (distinct eqb (map fst rows))
                  = distinct eqb (map fst (filter keep rows))).
  { rewrite <- distinct_filter.
    - f_equal. clear. induction rows as [|r rows IHr]; simpl; auto.
      unfold keep at 1. destruct (negb (eqb k (fst r))); simpl; now rewrite IHr.
    - intros a b Hab. f_equal. rewrite (eqb_sym k a), (eqb_sym k b).
      now apply eqb_congr_l. }
  rewrite Hkeys.
  assert (Hsame : forall k', In k' (distinct eqb (map fst (filter keep rows))) ->
            F ((k, v) :: rows) k' = F (filter keep rows) k').
  { intros k' Hk'. apply distinct_incl in Hk'. apply in_map_iff in Hk'.
    destruct Hk' as (r & <- & Hr). apply filter_In in Hr. destruct Hr as [_ Hr].
    unfold keep in Hr. apply negb_true_iff in Hr.
    unfold F. cbn [filter fst]. rewrite (eqb_sym (fst r) k), Hr.
    f_equal. f_equal. f_equal. clear -Hr eqb_sym eqb_trans eqb_refl.
    induction rows as [|r' rows IHr]; simpl; auto.
    unfold keep at 1. destruct (eqb k (fst r')) eqn:Hk; simpl.
    - assert (Hno : eqb (fst r) (fst r') = false).
      { destruct (eqb (fst r) (fst r')) eqn:E; [|reflexivity].
        rewrite <- Hr. symmetry. apply eqb_trans with (fst r'); [exact Hk|].
        now rewrite eqb_sym. }
      rewrite Hno. exact IHr.
    - destruct (eqb (fst r) (fst r')); simpl; now rewrite IHr. }
  rewrite (map_ext_in _ _ _ Hsame), IH.
  - unfold F. cbn [filter fst]. rewrite eqb_refl. rewrite !length_map.
    assert (Hsplit : forall l : list (K * V),
               (List.length (filter (fun r => eqb k (fst r)) l)
                + List.length (filter keep l) = List.length l)%nat).
    { clear. induction l as [|r l IHl]; simpl; auto.
      unfold keep at 1. destruct (eqb k (fst r)); simpl; lia. }
    specialize (Hsplit rows). simpl List.length. lia.
  - pose proof (filter_length_le keep rows). simpl in Hle. lia.
Qed.

End DistinctFacts.

Lemma firstn_In A n (l : list A) x : In x (firstn n l) -> In x l.
Proof.
  intros H. rewrite <- (firstn_skipn n l). apply in_or_app. now left.
Qed.

Section OrderFacts.
Variable A : Type.
Variable leb : A -> A -> bool.

Lemma insert_by_perm x l : Permutation (insert_by leb x l) (x :: l).
Proof.
  induction l as [|y l IH]; simpl; [reflexivity|].
  destruct (leb x y); [reflexivity|].
  rewrite IH. apply perm_swap.
Qed.

Lemma order_by_perm l : Permutation (order_by leb l) l.
Proof.
  induction l as [|x l IH]; simpl; [reflexivity|].
  rewrite insert_by_perm. now constructor.
Qed.

Lemma order_by_length l : List.length (order_by leb l) = List.length l.
Proof. apply Permutation_length, order_by_perm. Qed.

Lemma order_by_In l x : In x (order_by leb l) <-> In x l.
Proof.
  split; apply Permutation_in; [|symmetry]; apply order_by_perm.
Qed.

Hypothesis leb_total : forall a b, leb a b = true \/ leb b a = true.
Hypothesis leb_trans :
  forall a b c, leb a b = true -> leb b c = true -> leb a c = true.

Lemma insert_by_sorted x l :
  StronglySorted (precedes leb) l -> StronglySorted (precedes leb) (insert_by leb x l).
Proof.
  induction 1 as [|y l Hl IH Hy]; simpl.
  - repeat constructor.
  - destruct (leb x y) eqn:Hxy.
    + constructor; [now constructor|].
      constructor; [exact Hxy|].
      rewrite Forall_forall in *. intros z Hz. eapply leb_trans; eauto.
      apply Hy, Hz.
    + constructor; [exact IH|].
      apply Forall_forall. intros z Hz.
      apply (Permutation_in _ (insert_by_perm x l)) in Hz.
      destruct Hz as [<-|Hz].
      * destruct (leb_total x y) as [H|H]; [congruence|exact H].
      * rewrite Forall_forall in Hy. apply Hy, Hz.
Qed.

Lemma order_by_sorted l : StronglySorted (precedes leb) (order_by leb l).
Proof.
  induction l as [|x l IH]; simpl; [constructor|].
  apply insert_by_sorted, IH.
Qed.

Lemma firstn_sorted n l : StronglySorted (precedes leb) l -> StronglySorted (precedes leb) (firstn n l).
Proof.
  intros H. revert n. induction H as [|x l Hl IH Hx]; intros [|n]; simpl;
    try constructor.
  - apply IH.
  - rewrite Forall_forall in *. intros y Hy. apply Hx.
    eapply firstn_In; exact Hy.
Qed.

(** What LIMIT leaves out comes after everything it keeps. *)
Lemma firstn_sorted_cut n l x y :
  StronglySorted (precedes leb) l -> In x (firstn n l) -> In y (skipn n l) -> precedes leb x y.
Proof.
  intros H. revert n. induction H as [|z l Hl IH Hz]; intros [|n]; simpl;
    try contradiction.
  intros [<-|Hx] Hy.
  - rewrite Forall_forall in Hz. apply Hz.
    rewrite <- (firstn_skipn n l). apply in_or_app. now right.
  - eapply IH; eauto.
Qed.

End OrderFacts.

Lemma sum_perm l l' :
  Permutation l l' -> fold_right Z.add 0 l = fold_right Z.add 0 l'.
Proof. induction 1; simpl; lia. Qed.

Lemma ostr_eqb_eq a b : ostr_eqb a b = true <-> a = b.
Proof.
  destruct a as [x|], b as [y|]; simpl; try (split; congruence).
  rewrite String.eqb_eq. split; congruence.
Qed.

Lemma ostr_eqb_refl a : ostr_eqb a a = true.
Proof. now apply ostr_eqb_eq. Qed.

Lemma ostr_eqb_sym a b : ostr_eqb a b = ostr_eqb b a.
Proof.
  destruct (ostr_eqb a b) eqn:H1, (ostr_eqb b a) eqn:H2; auto;
    [apply ostr_eqb_eq in H1; subst; now rewrite ostr_eqb_refl in H2
    |apply ostr_eqb_eq in H2; subst; now rewrite ostr_eqb_refl in H1].
Qed.

Lemma ostr_eqb_trans a b c :
  ostr_eqb a b = true -> ostr_eqb b c = true -> ostr_eqb a c = true.
Proof. rewrite !ostr_eqb_eq. congruence. Qed.

Lemma same_node_refl a : same_node a a = true.
Proof. apply Z.eqb_refl. Qed.

Lemma same_node_sym a b : same_node a b = same_node b a.
Proof. apply Z.eqb_sym. Qed.

Lemma same_node_trans a b c :
  same_node a b = true -> same_node b c = true -> same_node a c = true.
Proof. unfold same_node. rewrite !Z.eqb_eq. congruence. Qed.

Lemma desc_by_total A (f : A -> Z) a b :
  Cypher.desc_by f a b = true \/ Cypher.desc_by f b a = true.
Proof. unfold Cypher.desc_by. rewrite !Z.leb_le. lia. Qed.

Lemma desc_by_trans A (f : A -> Z) a b c :
  Cypher.desc_by f a b = true -> Cypher.desc_by f b c = true ->
  Cypher.desc_by f a c = true.
Proof. unfold Cypher.desc_by. rewrite !Z.leb_le. lia. Qed.

(* ===================================================================== *)
(** ** Graph statistics *)

(** C7. For every graph, the per-[stix_type] counts returned by
    [A2_object_types] add up to the node count returned by [A1_counts]:
    A1's node table is the single row holding that sum. *)
Theorem C7_type_counts_sum_to_node_count (G : Graph) :
  fst (Cypher.A1_counts G)
  = [fold_right Z.add 0 (map snd (Cypher.A2_object_types G))].
Proof.
  unfold Cypher.A1_counts, Cypher.A2_object_types. cbn [fst]. f_equal.
  rewrite (sum_perm (Permutation_map snd (order_by_perm _ _))).
  rewrite map_map. cbn [snd]. unfold Cypher.zlen.
  rewrite group_sizes;
    [now rewrite length_map|apply ostr_eqb_refl|apply ostr_eqb_sym
    |apply ostr_eqb_trans].
Qed.

Lemma StronglySorted_impl A (R S : A -> A -> Prop) l :
  (forall a b, R a b -> S a b) -> StronglySorted R l -> StronglySorted S l.
Proof.
  intros H. induction 1 as [|x l Hl IH Hx]; constructor; auto.
  eapply Forall_impl; [|exact Hx]. auto.
Qed.

Lemma limit_length A n (l : list A) : (List.length (limit n l) <= n)%nat.
Proof. apply firstn_le_length. Qed.


(** ORDER BY followed by LIMIT keeps a sorted prefix: what is left out is a
    suffix of the sorted rows, present only when the limit is reached. *)
Lemma order_limit_split A (leb : A -> A -> bool) n (l : list A) :
  (forall a b, leb a b = true \/ leb b a = true) ->
  (forall a b c, leb a b = true -> leb b c = true -> leb a c = true) ->
  exists rest,
    Permutation (limit n (order_by leb l) ++ rest) l /\
    (forall r r', In r (limit n (order_by leb l)) -> In r' rest -> leb r r' = true) /\
    (rest <> [] -> List.length (limit n (order_by leb l)) = n).
Proof.
  intros Htot Htr. exists (skipn n (order_by leb l)). unfold limit.
  split; [|split].
  - rewrite firstn_skipn. apply order_by_perm.
  - intros r r' Hr Hr'.
    eapply firstn_sorted_cut; [|exact Hr|exact Hr'].
    now apply order_by_sorted.
  - intros Hne. rewrite length_firstn.
    destruct (Nat.le_gt_cases (List.length (order_by leb l)) n) as [Hle|Hgt];
      [|lia].
    exfalso. apply Hne. now apply skipn_all2.
Qed.

(* ===================================================================== *)
(** ** Recently modified techniques *)

Lemma recent_spec E G days x m :
  In (x, m) (Cypher.recent E G days) <->
  exists t, In t (nodes G) /\ Cypher.technique t = true /\
            name t = x /\ modified t = Some m /\ now E - days * day_ms <= m.
Proof.
  unfold Cypher.recent, Cypher.cutoff. rewrite in_flat_map. split.
  - intros (t & Ht & Hin). apply filter_In in Ht. destruct Ht as [Ht Htech].
    destruct (modified t) as [m'|] eqn:Hm; [|contradiction].
    destruct (now E - days * day_ms <=? m') eqn:Hc; [|contradiction].
    destruct Hin as [Hin|[]]. inversion Hin; subst.
    exists t. apply Z.leb_le in Hc. auto.
  - intros (t & Ht & Htech & Hn & Hm & Hc). exists t. split.
    + apply filter_In. auto.
    + rewrite Hm. apply Z.leb_le in Hc. rewrite Hc. left. now rewrite Hn.
Qed.

(** C5. [D5_recently_modified] returns the techniques whose [modified] is at
    or after the current time minus the day window: a technique modified
    exactly at the cutoff qualifies, any older one (or one without the
    property) does not.  The qualifying rows are returned ordered by
    [modified] descending and cut to 25: the rows left out exist only when
    25 rows are returned and none of them is more recent than a returned
    row. *)
Theorem C5_recently_modified_window (E : Engine) (G : Graph) (days : Z) :
  (forall x m,
      In (x, m) (Cypher.recent E G days) <->
      exists t, In t (nodes G) /\ Cypher.technique t = true /\
                name t = x /\ modified t = Some m /\
                now E - days * day_ms <= m) /\
  (exists rest,
      Permutation (Cypher.D5_recently_modified E G days ++ rest)
                  (Cypher.recent E G days) /\
      (forall r r', In r (Cypher.D5_recently_modified E G days) ->
                    In r' rest -> snd r' <= snd r) /\
      (rest <> [] ->
       List.length (Cypher.D5_recently_modified E G days) = 25%nat)) /\
  StronglySorted (fun a b => snd b <= snd a)
                 (Cypher.D5_recently_modified E G days) /\
  (List.length (Cypher.D5_recently_modified E G days) <= 25)%nat.
Proof.
  split; [intros; apply recent_spec|].
  unfold Cypher.D5_recently_modified. split; [|split].
  - destruct (order_limit_split (Cypher.desc_by snd) 25 (Cypher.recent E G days))
      as (rest & Hp & Hcut & Hfull).
    + apply desc_by_total.
    + apply desc_by_trans.
    + exists rest. split; [exact Hp|]. split; [|exact Hfull].
      intros r r' Hr Hr'. specialize (Hcut r r' Hr Hr').
      unfold Cypher.desc_by in Hcut. now apply Z.leb_le in Hcut.
  - apply StronglySorted_impl with (R := precedes (Cypher.desc_by snd)).
    + intros a b H. unfold precedes, Cypher.desc_by in H. now apply Z.leb_le.
    + apply firstn_sorted.
      apply order_by_sorted; [apply desc_by_total|apply desc_by_trans].
  - apply limit_length.
Qed.

Lemma C5_recently_modified_window_witness :
  In (Some "at the cutoff", 1728000000)
     (Cypher.recent recency_engine recency_boundary 180) /\
  ~ In (Some "just before", 1727999999)
       (Cypher.recent recency_engine recency_boundary 180) /\
  Cypher.D5_recently_modified recency_engine recency_boundary 180
  = [(Some "at the cutoff", 1728000000)].
Proof.
  destruct (C5_recently_modified_window recency_engine recency_boundary 180)
    as [Hspec _].
  split; [|split; [|reflexivity]].
  - apply Hspec. eexists. split; [left; reflexivity|].
    repeat split; vm_compute; congruence.
  - intros Hin. apply Hspec in Hin.
    destruct Hin as (t & _ & _ & _ & _ & Hc). vm_compute in Hc. now apply Hc.
Defined.

(* ===================================================================== *)
(** ** The executor's session discipline *)

(** A session block gives back every session it took, whatever its body
    does with the outcome, as long as the body leaves the set of open
    sessions alone. *)
Lemma with_session_releases A (d : Driver) (body : nat -> M A) w :
  (forall s w1, open_sessions (snd (body s w1)) = open_sessions w1) ->
  open_sessions (snd (with_session d body w)) = open_sessions w.
Proof.
  intros Hbody. unfold with_session.
  destruct (session_fails d); [reflexivity|].
  specialize (Hbody (next_session w)
    (mkWorld (next_session w :: open_sessions w) (S (next_session w))
             (trace w ++ [Acquired (next_session w)]))).
  destruct (body _ _) as [r w2]. simpl in *.
  rewrite Hbody. simpl. now rewrite Nat.eqb_refl.
Qed.

(** C9. Every invocation of [query] leaves the open sessions as it found
    them.  When the session is obtained, the trace grows by exactly its
    acquisition, the run and its release, and the outcome is the run's
    failure, the failure met while the records are materialized, or the
    table (possibly of zero records): the release is on each of these
    paths.  When [driver.session()] itself fails nothing was acquired and
    the world is unchanged. *)
Theorem C9_session_released_on_every_path (d : Driver) (q : Query) (w : World) :
  open_sessions (snd (AttackKG.query d q w)) = open_sessions w /\
  match session_fails d with
  | Some e => AttackKG.query d q w = (inl e, w)
  | None =>
      let s := next_session w in
      trace (snd (AttackKG.query d q w))
        = (trace w ++ [Acquired s; Ran s q; Released s])%list /\
      fst (AttackKG.query d q w)
        = match respond d q with
          | RunFails e => inl e
          | Answers r =>
              match failure r with
              | Some e => inl e
              | None => inr (DataFrame_of (records r))
              end
          end
  end.
Proof.
  unfold AttackKG.query, with_session, session_run, bind, log, lift,
    df_from_result, raise, ret, close.
  destruct (session_fails d) as [e|]; [split; reflexivity|].
  destruct (respond d q) as [e|r]; simpl;
    [|destruct (failure r); simpl];
    rewrite Nat.eqb_refl, <- ?app_assoc; simpl; auto.
Qed.

(* ===================================================================== *)
(** ** Case-insensitive filters *)







(** What [query] returns for the modelled database. *)
Lemma query_neo4j E G q w :
  fst (AttackKG.query (neo4j E G) q w)
  = match run E G q with
    | inl e => inl e
    | inr recs => inr (DataFrame_of recs)
    end.
Proof.
  unfold AttackKG.query, with_session, session_run, bind, log, lift,
    df_from_result, raise, ret, neo4j. simpl.
  destruct (run E G q); reflexivity.
Qed.



(* ===================================================================== *)
(** ** Shape of the returned tables *)

Lemma distinct_absorb (l1 l2 : list string) :
  (forall x, In x l2 -> In x l1) ->
  distinct String.eqb (l1 ++ l2) = distinct String.eqb l1.
Proof.
  remember (List.length l1) as n eqn:Hn.
  assert (Hle : (List.length l1 <= n)%nat) by lia. clear Hn.
  revert l1 l2 Hle.
  induction n as [|n IH]; intros l1 l2 Hle Hin.
  - destruct l1; [|simpl in Hle; lia].
    destruct l2 as [|y l2]; [reflexivity|]. destruct (Hin y); now left.
  - destruct l1 as [|x l1].
    { destruct l2 as [|y l2]; [reflexivity|]. destruct (Hin y); now left. }
    simpl. f_equal.
    assert (Hresp : forall a b, String.eqb a b = true ->
                      negb (String.eqb x a) = negb (String.eqb x b)).
    { intros a b Hab. apply String.eqb_eq in Hab. now subst. }
    rewrite <- !(distinct_filter String.eqb _ _ Hresp).
    rewrite filter_app. apply IH.
    + pose proof (filter_length_le (fun y => negb (String.eqb x y)) l1).
      simpl in Hle. lia.
    + intros y Hy. apply filter_In in Hy. destruct Hy as [Hy Hxy].
      apply filter_In. split; [|exact Hxy].
      destruct (Hin y Hy) as [->|H]; [|exact H].
      now rewrite String.eqb_refl in Hxy.
Qed.

Lemma union_of_equal_keys (cols : list string) (recs : list Record_) :
  recs <> [] ->
  Forall (fun r => map fst r = cols) recs ->
  distinct String.eqb (flat_map (map fst) recs) = distinct String.eqb cols.
Proof.
  destruct recs as [|r recs]; [congruence|]. intros _ H.
  inversion H as [|? ? Hr Hrest]; subst. simpl.
  apply distinct_absorb. intros x Hx. apply in_flat_map in Hx.
  destruct Hx as (r' & Hr' & Hx). rewrite Forall_forall in Hrest.
  now rewrite <- (Hrest r' Hr').
Qed.

Lemma get_present (r : Record_) c : In c (map fst r) -> get r c <> None.
Proof.
  unfold get. induction r as [|[k v] r IH]; simpl; [contradiction|].
  intros [->|H].
  - now rewrite String.eqb_refl.
  - destruct (String.eqb k c); [discriminate|]. now apply IH.
Qed.

(** The table built from records that all carry the keys [cols]. *)
Lemma DataFrame_of_shape (cols : list string) (recs : list Record_) :
  distinct String.eqb cols = cols ->
  Forall (fun r => map fst r = cols) recs ->
  (recs = [] /\ DataFrame_of recs = mkDataFrame [] []) \/
  (data (DataFrame_of recs) <> [] /\
   columns (DataFrame_of recs) = cols /\
   List.length (data (DataFrame_of recs)) = List.length recs /\
   Forall (fun row => List.length row = List.length cols /\ ~ In None row)
          (data (DataFrame_of recs))).
Proof.
  intros Hcols Hall. destruct recs as [|r recs]; [left; split; reflexivity|].
  right. unfold DataFrame_of. cbn [columns data].
  rewrite (union_of_equal_keys (cols := cols)), Hcols by (auto; congruence).
  split; [simpl; congruence|]. split; [reflexivity|].
  split; [apply length_map|].
  apply Forall_forall. intros row Hrow. apply in_map_iff in Hrow.
  destruct Hrow as (r' & <- & Hr'). split; [apply length_map|].
  intros Hnone. apply in_map_iff in Hnone. destruct Hnone as (c & Hc & Hin).
  rewrite Forall_forall in Hall. rewrite <- (Hall r' Hr') in Hin.
  exact (get_present r' c Hin Hc).
Qed.

Lemma run_keys E G q recs :
  run E G q = inr recs -> Forall (fun r => map fst r = columns_of q) recs.
Proof.
  destruct q; simpl; intros H;
    try (inversion H; subst; clear H; same_keys).
  - destruct (Cypher.B6_shortest_connection_between_groups _ _ _ _);
      inversion H; subst; same_keys.
  - destruct (Cypher.C3_detection_coverage_top _ _);
      inversion H; subst; same_keys.
Qed.




(* ===================================================================== *)
(** ** Detection coverage *)

Lemma group_by_In K V (eqb : K -> K -> bool) (rows : list (K * V)) k vs :
  In (k, vs) (group_by eqb rows) <->
  In k (distinct eqb (map fst rows)) /\
  vs = map snd (filter (fun r => eqb k (fst r)) rows).
Proof.
  unfold group_by. rewrite in_map_iff. split.
  - intros (k' & Heq & Hin). inversion Heq; subst. auto.
  - intros (Hin & ->). exists k. auto.
Qed.

Lemma filter_flat_map A B (p : B -> bool) (f : A -> list B) l :
  filter p (flat_map f l) = flat_map (fun x => filter p (f x)) l.
Proof.
  induction l as [|x l IH]; simpl; [reflexivity|].
  now rewrite filter_app, IH.
Qed.

Lemma map_flat_map A B C (g : B -> C) (f : A -> list B) l :
  map g (flat_map f l) = flat_map (fun x => map g (f x)) l.
Proof.
  induction l as [|x l IH]; simpl; [reflexivity|].
  now rewrite map_app, IH.
Qed.

Lemma flat_map_filter_if A B (p : A -> bool) (f : A -> list B) l :
  flat_map (fun x => if p x then f x else []) l = flat_map f (filter p l).
Proof.
  induction l as [|x l IH]; simpl; [reflexivity|].
  destruct (p x); simpl; now rewrite IH.
Qed.

(** The values grouped under key [k] when every source item [x] contributes
    rows that all carry the key [key x]. *)
Lemma group_values A K V (eqb : K -> K -> bool) (key : A -> K)
      (vals : A -> list V) (l : list A) k :
  map snd (filter (fun r => eqb k (fst r))
             (flat_map (fun x => map (fun v => (key x, v)) (vals x)) l))
  = flat_map vals (filter (fun x => eqb k (key x)) l).
Proof.
  rewrite filter_flat_map, map_flat_map, <- flat_map_filter_if.
  apply flat_map_ext. intros x.
  destruct (eqb k (key x)) eqn:Hk.
  - rewrite forallb_filter_id.
    + rewrite map_map. simpl. apply map_id.
    + apply forallb_forall. intros r Hr. apply in_map_iff in Hr.
      destruct Hr as (v & <- & _). exact Hk.
  - replace (filter _ _) with (@nil (K * V)); [reflexivity|].
    symmetry. induction (vals x) as [|v vs IH]; simpl; [reflexivity|].
    now rewrite Hk.
Qed.

Lemma somes_app A (l1 l2 : list (option A)) :
  somes (l1 ++ l2) = (somes l1 ++ somes l2)%list.
Proof.
  induction l1 as [|[x|] l1 IH]; simpl; [reflexivity| |]; now rewrite IH.
Qed.

Lemma somes_Some A (l : list A) : somes (map Some l) = l.
Proof. induction l as [|x l IH]; simpl; [|rewrite IH]; reflexivity. Qed.

Lemma count_optional A (l : list A) : count (optional l) = Cypher.zlen l.
Proof.
  unfold count, Cypher.zlen. destruct l as [|x l]; [reflexivity|].
  unfold optional. now rewrite somes_Some.
Qed.

Lemma count_flat_map A B (f : A -> list (option B)) l :
  count (flat_map f l) = fold_right Z.add 0 (map (fun x => count (f x)) l).
Proof.
  unfold count. induction l as [|x l IH]; simpl; [reflexivity|].
  rewrite somes_app, length_app, Nat2Z.inj_add, IH. reflexivity.
Qed.

Lemma optional_inhabited A (l : list A) : exists v, In v (optional l).
Proof. destruct l as [|x l]; simpl; eauto. Qed.

Lemma filter_filter A (p q : A -> bool) l :
  filter p (filter q l) = filter (fun x => q x && p x) l.
Proof.
  induction l as [|x l IH]; simpl; [reflexivity|].
  destruct (q x); simpl; [destruct (p x)|]; now rewrite IH.
Qed.

Lemma distinct_In_eq (l : list (option string)) x :
  In x (distinct ostr_eqb l) <-> In x l.
Proof.
  split; [apply distinct_incl|].
  intros H. destruct (distinct_covers ostr_eqb ostr_eqb_refl ostr_eqb_trans l x H)
    as (y & Hy & Hyx).
  apply ostr_eqb_eq in Hyx. now subst.
Qed.

(** The rows of the ranking before ordering: one per technique name, with
    the number of [detects] relations arriving at techniques of that name. *)
Lemma detection_counts_spec G x c :
  In (x, c) (Cypher.detection_counts G) <->
  (exists t, In t (nodes G) /\ Cypher.technique t = true /\ name t = x) /\
  c = detects_onto G x.
Proof.
  unfold Cypher.detection_counts. rewrite in_map_iff.
  assert (Hkeys : In x (distinct ostr_eqb (map fst
            (flat_map (fun tech => map (fun dc => (name tech, dc))
               (optional (into G (is_rel "detects") Cypher.data_component tech)))
               (filter Cypher.technique (nodes G))))) <->
          exists t, In t (nodes G) /\ Cypher.technique t = true /\ name t = x).
  { rewrite distinct_In_eq, in_map_iff. split.
    - intros ([k v] & <- & Hin). apply in_flat_map in Hin.
      destruct Hin as (t & Ht & Hin). apply filter_In in Ht.
      apply in_map_iff in Hin. destruct Hin as (dc & Heq & _).
      inversion Heq; subst. exists t. tauto.
    - intros (t & Ht & Htech & <-).
      destruct (optional_inhabited (into G (is_rel "detects") Cypher.data_component t))
        as (v & Hv).
      exists (name t, v). split; [reflexivity|]. apply in_flat_map.
      exists t. split; [apply filter_In; auto|].
      apply in_map_iff. eauto. }
  assert (Hcount : count (map snd (filter (fun r => ostr_eqb x (fst r))
            (flat_map (fun tech => map (fun dc => (name tech, dc))
               (optional (into G (is_rel "detects") Cypher.data_component tech)))
               (filter Cypher.technique (nodes G)))))
          = detects_onto G x).
  { rewrite group_values, count_flat_map, filter_filter. unfold detects_onto.
    f_equal. apply map_ext. intros t. apply count_optional. }
  split.
  - intros ([k vs] & Heq & Hin). simpl in Heq. inversion Heq; subst.
    apply group_by_In in Hin. destruct Hin as [Hk ->].
    split; [now apply Hkeys|]. now rewrite Hcount.
  - intros [Hex ->]. exists (x, map snd (filter (fun r => ostr_eqb x (fst r))
            (flat_map (fun tech => map (fun dc => (name tech, dc))
               (optional (into G (is_rel "detects") Cypher.data_component tech)))
               (filter Cypher.technique (nodes G))))).
    simpl. split; [now rewrite Hcount|].
    apply group_by_In. split; [now apply Hkeys|reflexivity].
Qed.

Lemma zlen_nonneg A (l : list A) : 0 <= Cypher.zlen l.
Proof. unfold Cypher.zlen. lia. Qed.

Lemma zlen_zero A (l : list A) : Cypher.zlen l = 0 <-> l = [].
Proof.
  unfold Cypher.zlen. destruct l; simpl; split; intros; try lia; congruence.
Qed.

Lemma sum_zero A (f : A -> Z) l :
  (forall x, 0 <= f x) ->
  (fold_right Z.add 0 (map f l) = 0 <-> forall x, In x l -> f x = 0).
Proof.
  intros Hf. induction l as [|y l IH]; simpl.
  - split; [contradiction|reflexivity].
  - assert (0 <= fold_right Z.add 0 (map f l)).
    { clear IH. induction l as [|z l IHl]; simpl; [lia|]. specialize (Hf z). lia. }
    specialize (Hf y). split.
    + intros Hs x [<-|Hx]; [lia|]. apply IH; [lia|exact Hx].
    + intros Hall. rewrite (Hall y) by now left.
      rewrite (proj2 IH); [reflexivity|]. intros x Hx. apply Hall. now right.
Qed.

Lemma detects_onto_zero G x :
  detects_onto G x = 0 <->
  forall t, In t (nodes G) -> Cypher.technique t = true -> name t = x ->
            into G (is_rel "detects") Cypher.data_component t = [].
Proof.
  unfold detects_onto. rewrite sum_zero by (intros; apply zlen_nonneg). split.
  - intros H t Ht Htech Hn. apply zlen_zero, H, filter_In.
    split; [exact Ht|]. rewrite Htech. simpl. apply ostr_eqb_eq. congruence.
  - intros H t Ht. apply filter_In in Ht. destruct Ht as [Ht Hc].
    apply andb_true_iff in Hc. destruct Hc as [Htech Hn].
    apply ostr_eqb_eq in Hn. apply zlen_zero. now apply H.
Qed.

Lemma distinct_NoDup K (eqb : K -> K -> bool) (l : list K) :
  (forall a, eqb a a = true) -> NoDup (distinct eqb l).
Proof.
  intros Hrefl. pose proof (distinct_apart eqb l) as H.
  induction H as [|x r Hx Hr IH]; constructor; [|exact IH].
  intros Hin. rewrite Forall_forall in Hx. specialize (Hx x Hin).
  now rewrite Hrefl in Hx.
Qed.

Lemma group_by_keys K V (eqb : K -> K -> bool) (rows : list (K * V)) :
  map fst (group_by eqb rows) = distinct eqb (map fst rows).
Proof. unfold group_by. rewrite map_map. simpl. apply map_id. Qed.

Lemma firstn_NoDup A n (l : list A) : NoDup l -> NoDup (firstn n l).
Proof.
  intros H. rewrite <- (firstn_skipn n l) in H.
  exact (NoDup_app_remove_r _ _ H).
Qed.

Lemma detection_counts_keys G : NoDup (map fst (Cypher.detection_counts G)).
Proof.
  unfold Cypher.detection_counts. rewrite map_map. cbn [fst].
  change (fun x : option string * list (option Node) => fst x) with
    (@fst (option string) (list (option Node))).
  rewrite group_by_keys. apply distinct_NoDup, ostr_eqb_refl.
Qed.

(** C3, as the code has it.  With a non-negative limit,
    [C3_detection_coverage_top] returns one row per technique name, holding
    the number of [detects] relations that reach the techniques of that
    name from data components (each relation counts, so parallel relations
    from one data component count separately); the rows are in descending
    order of that number and there are at most [limit] of them, the rows
    cut off being no larger than those kept.  A negative limit is refused
    by the database. *)
Theorem C3_detection_ranking (G : Graph) (l : Z) :
  match Cypher.C3_detection_coverage_top G l with
  | inr rows =>
      0 <= l /\
      (List.length rows <= Z.to_nat l)%nat /\
      StronglySorted (fun a b => snd b <= snd a) rows /\
      NoDup (map fst rows) /\
      (forall x c, In (x, c) rows ->
         (exists t, In t (nodes G) /\ Cypher.technique t = true /\ name t = x) /\
         c = detects_onto G x) /\
      (exists rest,
         Permutation (rows ++ rest) (Cypher.detection_counts G) /\
         (forall r r', In r rows -> In r' rest -> snd r' <= snd r) /\
         (rest <> [] -> List.length rows = Z.to_nat l))
  | inl e => l < 0 /\ e = NegativeLimit
  end.
Proof.
  unfold Cypher.C3_detection_coverage_top.
  destruct (l <? 0) eqn:Hl; [apply Z.ltb_lt in Hl; auto|].
  apply Z.ltb_ge in Hl. split; [exact Hl|].
  split; [apply limit_length|].
  split.
  { apply StronglySorted_impl with (R := precedes (Cypher.desc_by snd)).
    - intros a b H. unfold precedes, Cypher.desc_by in H. now apply Z.leb_le.
    - apply firstn_sorted.
      apply order_by_sorted; [apply desc_by_total|apply desc_by_trans]. }
  split.
  { unfold limit. rewrite <- firstn_map. apply firstn_NoDup.
    eapply Permutation_NoDup; [|apply detection_counts_keys].
    symmetry. apply Permutation_map, order_by_perm. }
  split.
  { intros x c Hin. apply firstn_In, order_by_In in Hin.
    now apply detection_counts_spec. }
  destruct (order_limit_split (Cypher.desc_by snd) (Z.to_nat l)
              (Cypher.detection_counts G))
    as (rest & Hp & Hcut & Hfull);
    [apply desc_by_total|apply desc_by_trans|].
  exists rest. split; [exact Hp|]. split; [|exact Hfull].
  intros r r' Hr Hr'. specialize (Hcut r r' Hr Hr').
  unfold Cypher.desc_by in Hcut. now apply Z.leb_le in Hcut.
Qed.

Lemma C3_detection_ranking_witness :
  (exists t, In t (nodes parallel_detects) /\ Cypher.technique t = true /\
             name t = Some "T1003") /\
  2 = detects_onto parallel_detects (Some "T1003").
Proof.
  apply (proj1 (proj2 (proj2 (proj2 (proj2
           (C3_detection_ranking parallel_detects 25)))))).
  left. reflexivity.
Defined.

(** C3 as stated fails on parallel relations: two [detects] relations from
    one data component give the technique a count of 2, while it has one
    distinct detector. *)
Lemma C3_parallel_detects_counted_twice :
  Cypher.C3_detection_coverage_top parallel_detects 25
  = inr [(Some "T1003", 2)] /\
  distinct_detectors parallel_detects (sample_node 1 "attack-pattern" "T1003") = 1.
Proof. split; reflexivity. Qed.

(** C10, as the code has it.  Lacking detectors never removes a technique
    from the ranking: for every technique the ranking has, before the cut,
    a row with its name and the count of [detects] relations reaching the
    techniques of that name; the row is returned unless the limit is
    reached by rows whose counts are at least as large.  The count is 0
    exactly when no technique of that name has a [detects] relation from a
    data component. *)
Theorem C10_undetected_techniques_kept (G : Graph) (l : Z) (t : Node) :
  In t (nodes G) -> Cypher.technique t = true -> 0 <= l ->
  exists rows,
    Cypher.C3_detection_coverage_top G l = inr rows /\
    In (name t, detects_onto G (name t)) (Cypher.detection_counts G) /\
    (In (name t, detects_onto G (name t)) rows \/
     (List.length rows = Z.to_nat l /\
      forall r, In r rows -> detects_onto G (name t) <= snd r)) /\
    (detects_onto G (name t) = 0 <->
     forall t', In t' (nodes G) -> Cypher.technique t' = true ->
                name t' = name t ->
                into G (is_rel "detects") Cypher.data_component t' = []).
Proof.
  intros Ht Htech Hl. unfold Cypher.C3_detection_coverage_top.
  destruct (l <? 0) eqn:Hneg; [apply Z.ltb_lt in Hneg; lia|].
  eexists. split; [reflexivity|].
  assert (Hrow : In (name t, detects_onto G (name t)) (Cypher.detection_counts G)).
  { apply detection_counts_spec. split; [|reflexivity]. exists t. auto. }
  split; [exact Hrow|]. split; [|apply detects_onto_zero].
  destruct (order_limit_split (Cypher.desc_by snd) (Z.to_nat l)
              (Cypher.detection_counts G))
    as (rest & Hp & Hcut & Hfull);
    [apply desc_by_total|apply desc_by_trans|].
  apply (Permutation_in _ (Permutation_sym Hp)) in Hrow.
  apply in_app_or in Hrow. destruct Hrow as [Hrow|Hrow]; [now left|right].
  split.
  - apply Hfull. intros ->. contradiction.
  - intros r Hr. specialize (Hcut r _ Hr Hrow).
    unfold Cypher.desc_by in Hcut. now apply Z.leb_le in Hcut.
Qed.

Lemma C10_undetected_techniques_kept_witness :
  exists rows,
    Cypher.C3_detection_coverage_top homonyms 25 = inr rows /\
    In (Some "Domain Accounts", detects_onto homonyms (Some "Domain Accounts"))
       (Cypher.detection_counts homonyms) /\
    (In (Some "Domain Accounts", detects_onto homonyms (Some "Domain Accounts")) rows \/
     (List.length rows = Z.to_nat 25 /\
      forall r, In r rows ->
                detects_onto homonyms (Some "Domain Accounts") <= snd r)) /\
    (detects_onto homonyms (Some "Domain Accounts") = 0 <->
     forall t', In t' (nodes homonyms) -> Cypher.technique t' = true ->
                name t' = Some "Domain Accounts" ->
                into homonyms (is_rel "detects") Cypher.data_component t' = []).
Proof.
  apply (@C10_undetected_techniques_kept homonyms 25
           (sample_node 2 "attack-pattern" "Domain Accounts")).
  - simpl. tauto.
  - reflexivity.
  - lia.
Defined.

(** C10 as stated fails when techniques share a name: the second technique
    of [homonyms] has no [detects] relation at all, yet the only row that
    carries its name has a count of 1, and no row has a count of 0. *)
Lemma C10_homonym_hides_undetected_technique :
  In (sample_node 2 "attack-pattern" "Domain Accounts") (nodes homonyms) /\
  into homonyms (is_rel "detects") Cypher.data_component
       (sample_node 2 "attack-pattern" "Domain Accounts") = [] /\
  Cypher.C3_detection_coverage_top homonyms 25
  = inr [(Some "Domain Accounts", 1)].
Proof. split; [simpl; tauto|split; reflexivity]. Qed.

(* ===================================================================== *)
(** ** Mitigations and mitigation gaps *)

Lemma node_at_nid G i v : node_at G i = Some v -> nid v = i.
Proof.
  unfold node_at. intros H. apply find_some in H. now apply Z.eqb_eq.
Qed.

Lemma node_at_self G i v : node_at G i = Some v -> node_at G (nid v) = Some v.
Proof. intros H. now rewrite (node_at_nid G i H). Qed.

Lemma out_of_node G pr pn u v :
  In v (out_of G pr pn u) -> node_at G (nid v) = Some v.
Proof.
  unfold out_of. rewrite in_flat_map. intros (r & _ & H).
  destruct (pr r && (src r =? nid u)); [|contradiction].
  destruct (node_at G (dst r)) as [v'|] eqn:Hn; [|contradiction].
  destruct (pn v'); [|contradiction].
  destruct H as [<-|[]]. exact (node_at_self G _ Hn).
Qed.

Lemma out_of_same_node G pr pn u u' :
  same_node u u' = true -> out_of G pr pn u = out_of G pr pn u'.
Proof.
  unfold same_node, out_of. intros H. apply Z.eqb_eq in H. now rewrite H.
Qed.

Lemma techniques_used_node G g t :
  In t (Cypher.techniques_used G g) -> node_at G (nid t) = Some t.
Proof.
  unfold Cypher.techniques_used. rewrite in_flat_map.
  intros (grp & _ & H). exact (out_of_node _ _ _ _ _ H).
Qed.

(** Two used techniques with the same identifier are the same node. *)
Lemma techniques_used_same G g t t' :
  In t (Cypher.techniques_used G g) -> In t' (Cypher.techniques_used G g) ->
  same_node t t' = true -> t = t'.
Proof.
  intros Ht Ht' Hs. apply techniques_used_node in Ht, Ht'.
  unfold same_node in Hs. apply Z.eqb_eq in Hs. rewrite Hs in Ht. congruence.
Qed.

Lemma mitigation_rows_keys G g t :
  In t (map fst
          (flat_map (fun tech =>
             map (fun co => (tech, co))
                 (optional (out_of G (is_rel "mitigates") Cypher.mitigation tech)))
             (Cypher.techniques_used G g))) <->
  In t (Cypher.techniques_used G g).
Proof.
  rewrite in_map_iff. split.
  - intros ([k v] & <- & Hin). apply in_flat_map in Hin.
    destruct Hin as (u & Hu & Hin). apply in_map_iff in Hin.
    destruct Hin as (co & Heq & _). inversion Heq; subst. exact Hu.
  - intros Ht.
    destruct (optional_inhabited (out_of G (is_rel "mitigates") Cypher.mitigation t))
      as (v & Hv).
    exists (t, v). split; [reflexivity|]. apply in_flat_map.
    exists t. split; [exact Ht|]. apply in_map_iff. eauto.
Qed.

(** The rows after [WITH tech, count(co) AS c]: one per used technique,
    whether mitigated or not, and the count is zero exactly for those no
    [mitigates] relation leaves. *)
Lemma mitigation_counts_spec G g t c :
  In (t, c) (Cypher.mitigation_counts G g) ->
  In t (Cypher.techniques_used G g) /\
  (c = 0 <-> out_of G (is_rel "mitigates") Cypher.mitigation t = []).
Proof.
  unfold Cypher.mitigation_counts. rewrite in_map_iff.
  intros ([k vs] & Heq & Hin). simpl in Heq. inversion Heq; subst. clear Heq.
  apply group_by_In in Hin. destruct Hin as [Hk ->].
  apply distinct_incl, mitigation_rows_keys in Hk. split; [exact Hk|].
  rewrite group_values, count_flat_map.
  rewrite sum_zero by (intros; rewrite count_optional; apply zlen_nonneg).
  split.
  - intros H. specialize (H t). rewrite count_optional in H.
    apply zlen_zero, H, filter_In. split; [exact Hk|apply same_node_refl].
  - intros Hnone u Hu. apply filter_In in Hu. destruct Hu as [_ Hs].
    rewrite count_optional. apply zlen_zero.
    now rewrite <- (out_of_same_node G _ _ _ _ Hs).
Qed.

Lemma mitigation_counts_total G g t :
  In t (Cypher.techniques_used G g) ->
  exists c, In (t, c) (Cypher.mitigation_counts G g).
Proof.
  intros Ht. pose proof Ht as Hrow. apply mitigation_rows_keys in Hrow.
  destruct (distinct_covers same_node same_node_refl same_node_trans _ _ Hrow)
    as (t' & Ht' & Hs).
  assert (t' = t) as ->.
  { apply (techniques_used_same G g); auto.
    eapply mitigation_rows_keys, distinct_incl, Ht'. }
  unfold Cypher.mitigation_counts.
  eexists. apply in_map_iff.
  eexists (t, _). split; [reflexivity|]. apply group_by_In. split; [exact Ht'|].
  reflexivity.
Qed.


(** The names [C2_group_mitigation_gaps] lists, before the limit. *)
Lemma gap_names G g x :
  In x (map (fun tc : Node * Z => name (fst tc))
          (filter (fun tc => snd tc =? 0) (Cypher.mitigation_counts G g))) <->
  exists t, In t (Cypher.techniques_used G g) /\ name t = x /\
            out_of G (is_rel "mitigates") Cypher.mitigation t = [].
Proof.
  rewrite in_map_iff. split.
  - intros ([t c] & <- & Hin). apply filter_In in Hin. destruct Hin as [Hin Hc].
    simpl in Hc. apply Z.eqb_eq in Hc.
    destruct (mitigation_counts_spec _ _ _ _ Hin) as [Ht Hz].
    exists t. split; [exact Ht|]. split; [reflexivity|]. now apply Hz.
  - intros (t & Ht & <- & Hnil).
    destruct (mitigation_counts_total G g t Ht) as (c & Hc).
    exists (t, c). split; [reflexivity|]. apply filter_In. split; [exact Hc|].
    simpl. apply Z.eqb_eq.
    now apply (proj2 (mitigation_counts_spec _ _ _ _ Hc)).
Qed.





Lemma string_leb_trans x y z :
  String.leb x y = true -> String.leb y z = true -> String.leb x z = true.
Proof.
  unfold String.leb. revert y z.
  induction x as [|a x IH]; intros [|b y] [|c z]; simpl; try easy.
  unfold Ascii.compare.
  destruct (N.compare_spec (N_of_ascii a) (N_of_ascii b)) as [Hab|Hab|Hab],
           (N.compare_spec (N_of_ascii b) (N_of_ascii c)) as [Hbc|Hbc|Hbc],
           (N.compare_spec (N_of_ascii a) (N_of_ascii c)) as [Hac|Hac|Hac];
    try easy; try lia.
  apply IH.
Qed.

Lemma ostr_leb_total a b : ostr_leb a b = true \/ ostr_leb b a = true.
Proof.
  destruct a as [x|], b as [y|]; simpl; auto. apply String.leb_total.
Qed.

Lemma ostr_leb_trans a b c :
  ostr_leb a b = true -> ostr_leb b c = true -> ostr_leb a c = true.
Proof.
  destruct a as [x|], b as [y|], c as [z|]; simpl; auto; try discriminate.
  apply string_leb_trans.
Qed.

(* ----- C1 ----- *)

Lemma somes_In A (l : list (option A)) x : In x (somes l) <-> In (Some x) l.
Proof.
  induction l as [|[y|] l IH]; simpl; [tauto| |].
  - rewrite IH. split; intros [H|H]; auto; left; congruence.
  - rewrite IH. split; [auto|]. intros [H|H]; [discriminate|exact H].
Qed.



(* ===================================================================== *)
(** ** Shortest connection between groups *)

Lemma other_end_spec r u i :
  Cypher.other_end r u = Some i ->
  src r = u /\ dst r = i \/ dst r = u /\ src r = i.
Proof.
  unfold Cypher.other_end.
  destruct (src r =? u) eqn:Hs.
  - apply Z.eqb_eq in Hs. intros H. inversion H. auto.
  - destruct (dst r =? u) eqn:Hd; [|discriminate].
    apply Z.eqb_eq in Hd. intros H. inversion H. auto.
Qed.


(** Every path the search enumerates has the length asked for and is a walk
    of the graph. *)
Lemma trails_walk G k : forall used u p,
  In p (Cypher.trails G k used u) -> List.length p = k /\ walk G u p.
Proof.
  induction k as [|k IH]; intros used u p Hin; simpl in Hin.
  - destruct Hin as [<-|[]]. split; [reflexivity|constructor].
  - apply in_flat_map in Hin. destruct Hin as (r & Hr & Hin).
    destruct (RelKind_eqb (kind r) ATTACK_REL) eqn:Hk; [|contradiction].
    destruct (negb (existsb (Z.eqb (rid r)) used)); [|contradiction].
    simpl in Hin.
    destruct (Cypher.other_end r (nid u)) as [i|] eqn:Ho; [|contradiction].
    destruct (node_at G i) as [v|] eqn:Hv; [|contradiction].
    apply in_map_iff in Hin. destruct Hin as (q & <- & Hq).
    destruct (IH _ _ _ Hq) as [Hlen Hw].
    split; [simpl; now rewrite Hlen|].
    pose proof (node_at_nid G i Hv) as Hi.
    constructor; auto.
    + destruct (kind r); [reflexivity|discriminate].
    + rewrite Hi. now apply other_end_spec.
    + now rewrite Hi.
Qed.

Lemma shortestPath_sound G a b p :
  Cypher.shortestPath G a b = Some p ->
  pstart p = a /\
  (1 <= List.length (psteps p) <= 6)%nat /\
  walk G a (psteps p) /\
  same_node (Cypher.path_end a (psteps p)) b = true.
Proof.
  unfold Cypher.shortestPath.
  destruct (flat_map _ _) as [|q qs] eqn:Hq; [discriminate|].
  intros H. inversion H; subst; clear H. simpl.
  assert (Hin : In q (q :: qs)) by now left.
  rewrite <- Hq in Hin. apply in_flat_map in Hin.
  destruct Hin as (k & Hk & Hin). apply filter_In in Hin.
  destruct Hin as [Hin Hend]. apply in_seq in Hk.
  destruct (trails_walk _ _ _ _ _ Hin) as [Hlen Hw].
  repeat split; auto; lia.
Qed.





Lemma path_end_cons a r v steps :
  Cypher.path_end a ((r, v) :: steps) = Cypher.path_end v steps.
Proof.
  unfold Cypher.path_end. simpl.
  destruct (map snd steps) as [|x l] eqn:Hm; [reflexivity|].
  clear Hm. revert x. induction l as [|y l IH]; intros x; [reflexivity|].
  simpl in *. apply IH.
Qed.


Lemma matches_filter G f a :
  In a (filter (fun n => Cypher.group_ n && name_contains (Str.toLower f) n)
               (nodes G)) <-> matches G f a.
Proof.
  unfold matches. rewrite filter_In, andb_true_iff. tauto.
Qed.



(* ----- C1 against the direction of [mitigates] ----- *)

(** C1.  In [mitigated_technique] the course of action is the source of the
    [mitigates] relation and the technique APT29 uses is its target.  The
    query follows [mitigates] out of the technique, so
    [C1_group_mitigations] returns no row for it and
    [C2_group_mitigation_gaps] reports it as unmitigated. *)
Theorem C1_mitigates_followed_out_of_technique :
  into mitigated_technique (is_rel "mitigates") Cypher.mitigation
       (sample_node 2 "attack-pattern" "T1003")
  = [sample_node 3 "course-of-action" "Privileged Account Management"] /\
  Cypher.techniques_used mitigated_technique (Str.toLower "APT29")
  = [sample_node 2 "attack-pattern" "T1003"] /\
  Cypher.C1_group_mitigations mitigated_technique "APT29" = [] /\
  Cypher.C2_group_mitigation_gaps mitigated_technique "APT29" = [Some "T1003"].
Proof. repeat split; reflexivity. Qed.

(* ===================================================================== *)
(** * Further properties of the catalog *)

(** ** Graph statistics, continued *)

Lemma filter_map_length A B (p : B -> bool) (f : A -> B) l :
  List.length (filter p (map f l)) = List.length (filter (fun x => p (f x)) l).
Proof.
  induction l as [|x l IH]; simpl; [reflexivity|].
  destruct (p (f x)); simpl; now rewrite IH.
Qed.

(** X1. [A2_object_types] has exactly one row per [stix_type] value carried
    by some [:Attack] node, nodes without the property being counted under
    one null row; the row holds the number of [:Attack] nodes of that type,
    which is at least 1, and the rows are in descending order of count. *)
Theorem A2_one_row_per_type (G : Graph) :
  NoDup (map fst (Cypher.A2_object_types G)) /\
  StronglySorted (fun a b => snd b <= snd a) (Cypher.A2_object_types G) /\
  (forall ty n,
      In (ty, n) (Cypher.A2_object_types G) <->
      (exists nd, In nd (nodes G) /\ attack nd = true /\ stix_type nd = ty) /\
      n = type_count G ty) /\
  (forall ty n, In (ty, n) (Cypher.A2_object_types G) -> 1 <= n).
Proof.
  assert (Hspec : forall ty n,
      In (ty, n) (Cypher.A2_object_types G) <->
      (exists nd, In nd (nodes G) /\ attack nd = true /\ stix_type nd = ty) /\
      n = type_count G ty).
  { intros ty n. unfold Cypher.A2_object_types. rewrite order_by_In, in_map_iff.
    assert (Hk : In ty (distinct ostr_eqb
                   (map fst (map (fun nd => (stix_type nd, tt))
                                 (filter attack (nodes G))))) <->
                 exists nd, In nd (nodes G) /\ attack nd = true /\ stix_type nd = ty).
    { rewrite distinct_In_eq, map_map, in_map_iff. simpl.
      split; intros (nd & H1 & H2).
      - apply filter_In in H2. exists nd. tauto.
      - exists nd. split; [tauto|]. apply filter_In. tauto. }
    assert (Hc : Cypher.zlen (map snd (filter (fun r => ostr_eqb ty (fst r))
                   (map (fun nd => (stix_type nd, tt)) (filter attack (nodes G)))))
                 = type_count G ty).
    { unfold Cypher.zlen, type_count. rewrite length_map, filter_map_length.
      simpl. now rewrite filter_filter. }
    split.
    - intros ([k vs] & Heq & Hin). simpl in Heq. inversion Heq; subst.
      apply group_by_In in Hin. destruct Hin as [Hin ->].
      split; [now apply Hk|]. unfold Cypher.zlen in *. exact Hc.
    - intros [Hex ->]. eexists (ty, _). split; [|apply group_by_In; split;
        [now apply Hk|reflexivity]]. simpl. f_equal. exact Hc. }
  split; [|split; [|split; [exact Hspec|]]].
  - eapply Permutation_NoDup;
      [symmetry; apply Permutation_map, order_by_perm|].
    rewrite map_map. cbn [fst].
    change (fun x : option string * list unit => fst x) with
      (@fst (option string) (list unit)).
    rewrite group_by_keys. apply distinct_NoDup, ostr_eqb_refl.
  - apply StronglySorted_impl with (R := precedes (Cypher.desc_by snd)).
    + intros a b H. unfold precedes, Cypher.desc_by in H. now apply Z.leb_le.
    + apply order_by_sorted; [apply desc_by_total|apply desc_by_trans].
  - intros ty n Hin. apply Hspec in Hin. destruct Hin as [(nd & Hnd & Ha & Ht) ->].
    unfold type_count, Cypher.zlen.
    assert (Hin : In nd (filter (fun n => attack n && ostr_eqb ty (stix_type n))
                                (nodes G))).
    { apply filter_In. split; [exact Hnd|]. rewrite Ha. simpl.
      now apply ostr_eqb_eq. }
    destruct (filter _ _); [contradiction|]. simpl. lia.
Qed.

(** X2. The per-[rel_type] counts returned by [A3_relationship_types] add
    up to the relationship count returned by [A1_counts]. *)
Theorem A3_counts_sum_to_relationship_count (G : Graph) :
  snd (Cypher.A1_counts G)
  = [fold_right Z.add 0 (map snd (Cypher.A3_relationship_types G))].
Proof.
  unfold Cypher.A1_counts, Cypher.A3_relationship_types. cbn [snd]. f_equal.
  rewrite (sum_perm (Permutation_map snd (order_by_perm _ _))).
  rewrite map_map. cbn [snd]. unfold Cypher.zlen.
  rewrite group_sizes;
    [now rewrite length_map|apply ostr_eqb_refl|apply ostr_eqb_sym
    |apply ostr_eqb_trans].
Qed.

Lemma sum_indicator A (p : A -> bool) l :
  fold_right Z.add 0 (map (fun x => if p x then 1 else 0) l)
  = Cypher.zlen (filter p l).
Proof.
  unfold Cypher.zlen. induction l as [|x l IH]; simpl; [reflexivity|].
  rewrite IH. destruct (p x); simpl List.length; lia.
Qed.

Lemma filter_split A (p q : A -> bool) l :
  Cypher.zlen (filter (fun x => p x && q x) l)
  + Cypher.zlen (filter (fun x => p x && negb (q x)) l)
  = Cypher.zlen (filter p l).
Proof.
  unfold Cypher.zlen. induction l as [|x l IH]; [reflexivity|]. simpl.
  destruct (p x), (q x); simpl List.length; lia.
Qed.

Lemma has_type_test t :
  Cypher.technique t = attack t && ostr_eqb (Some "attack-pattern") (stix_type t).
Proof.
  unfold Cypher.technique, has_type, str_is. simpl.
  destruct (stix_type t); [now rewrite String.eqb_sym|reflexivity].
Qed.

(** X3. [A5_active_vs_inactive] always returns exactly one row, also when
    the graph has no technique.  Its first count is the number of techniques
    with [deprecated] or [revoked] set to true, its second the number of the
    others; together they count every technique once, which is the count
    [A2_object_types] reports for the type [attack-pattern]. *)
Theorem A5_splits_the_techniques (G : Graph) :
  exists i a,
    Cypher.A5_active_vs_inactive G = [(i, a)] /\
    i = Cypher.zlen (filter (fun t => Cypher.technique t && inactive t) (nodes G)) /\
    a = Cypher.zlen (filter (fun t => Cypher.technique t && negb (inactive t))
                            (nodes G)) /\
    i + a = type_count G (Some "attack-pattern") /\
    (forall n, In (Some "attack-pattern", n) (Cypher.A2_object_types G) ->
               i + a = n).
Proof.
  unfold Cypher.A5_active_vs_inactive. cbv zeta. eexists. eexists.
  split; [reflexivity|].
  assert (H1 : fold_right Z.add 0
            (map (fun t => if Cypher.coalesce_false (deprecated t)
                              || Cypher.coalesce_false (revoked t)
                           then 1 else 0) (filter Cypher.technique (nodes G)))
          = Cypher.zlen (filter (fun t => Cypher.technique t && inactive t)
                                (nodes G))).
  { rewrite (sum_indicator inactive), filter_filter. reflexivity. }
  assert (H2 : fold_right Z.add 0
            (map (fun t => if negb (Cypher.coalesce_false (deprecated t))
                              && negb (Cypher.coalesce_false (revoked t))
                           then 1 else 0) (filter Cypher.technique (nodes G)))
          = Cypher.zlen (filter (fun t => Cypher.technique t && negb (inactive t))
                                (nodes G))).
  { rewrite <- filter_filter, <- sum_indicator. f_equal. apply map_ext.
    intros t. unfold inactive. now rewrite negb_orb. }
  assert (H3 : Cypher.zlen (filter (fun t => Cypher.technique t && inactive t)
                                   (nodes G))
               + Cypher.zlen (filter (fun t => Cypher.technique t && negb (inactive t))
                                     (nodes G))
               = type_count G (Some "attack-pattern")).
  { clear H1 H2. unfold type_count.
    rewrite <- (filter_ext _ _ has_type_test (nodes G)).
    apply filter_split. }
  rewrite H1, H2. repeat split; auto.
  intros n Hn. rewrite H3.
  destruct (A2_one_row_per_type G) as (_ & _ & Hspec & _).
  apply Hspec in Hn. symmetry. apply Hn.
Qed.

(* ===================================================================== *)
(** ** Actor analysis *)

Lemma limit_kept_or_full A n (l : list A) x :
  In x l -> In x (limit n l) \/ List.length (limit n l) = n.
Proof.
  intros Hin. unfold limit.
  destruct (Nat.le_gt_cases (List.length l) n) as [Hle|Hgt].
  - left. now rewrite firstn_all2.
  - right. rewrite length_firstn. lia.
Qed.

Lemma limit_order_kept_or_full A (leb : A -> A -> bool) n (l : list A) x :
  In x l ->
  In x (limit n (order_by leb l)) \/ List.length (limit n (order_by leb l)) = n.
Proof. intros Hin. apply limit_kept_or_full. now apply order_by_In. Qed.

Lemma limit_order_In A (leb : A -> A -> bool) n (l : list A) x :
  In x (limit n (order_by leb l)) -> In x l.
Proof. intros H. eapply order_by_In, firstn_In, H. Qed.

Lemma ostr_leb_antisym a b :
  ostr_leb a b = true -> ostr_leb b a = true -> a = b.
Proof.
  destruct a as [x|], b as [y|]; simpl; try discriminate; auto.
  intros H1 H2. f_equal. now apply String.leb_antisym.
Qed.

Lemma pair_leb_total a b :
  Cypher.pair_leb a b = true \/ Cypher.pair_leb b a = true.
Proof.
  unfold Cypher.pair_leb. rewrite (ostr_eqb_sym (fst b) (fst a)).
  destruct (ostr_eqb (fst a) (fst b)); apply ostr_leb_total.
Qed.

Lemma pair_leb_trans a b c :
  Cypher.pair_leb a b = true -> Cypher.pair_leb b c = true ->
  Cypher.pair_leb a c = true.
Proof.
  unfold Cypher.pair_leb.
  generalize (fst a) (fst b) (fst c) (snd a) (snd b) (snd c).
  intros x y z p q r.
  destruct (ostr_eqb x y) eqn:Hxy; destruct (ostr_eqb y z) eqn:Hyz;
    intros H1 H2.
  - apply ostr_eqb_eq in Hxy, Hyz. subst. rewrite ostr_eqb_refl.
    eapply ostr_leb_trans; eauto.
  - apply ostr_eqb_eq in Hxy. subst. now rewrite Hyz.
  - apply ostr_eqb_eq in Hyz. subst. now rewrite Hxy.
  - destruct (ostr_eqb x z) eqn:Hxz.
    + apply ostr_eqb_eq in Hxz. subst.
      rewrite (ostr_leb_antisym _ _ H1 H2), ostr_eqb_refl in Hxy. discriminate.
    + eapply ostr_leb_trans; eauto.
Qed.

(** The order of rows sorted by two nullable text columns: first column
    ascending with null last, ties broken by the second column likewise. *)
Lemma pair_leb_spec a b :
  Cypher.pair_leb a b = true ->
  ostr_leb (fst a) (fst b) = true /\
  (fst a = fst b -> ostr_leb (snd a) (snd b) = true).
Proof.
  unfold Cypher.pair_leb. destruct (ostr_eqb (fst a) (fst b)) eqn:Hab.
  - apply ostr_eqb_eq in Hab. intros H. split; [|auto].
    rewrite Hab. destruct (ostr_leb_total (fst b) (fst b)); assumption.
  - intros H. split; [exact H|]. intros Heq.
    rewrite Heq, ostr_eqb_refl in Hab. discriminate.
Qed.

Lemma optional_In A (l : list A) (o : option A) :
  In o (optional l) <->
  (l = [] /\ o = None) \/ (exists x, In x l /\ o = Some x).
Proof.
  destruct l as [|y l]; simpl.
  - split; [intros [<-|[]]; auto|intros [[_ ->]|(x & [] & _)]; auto].
  - split.
    + intros [<-|H]; right; [exists y; auto|].
      apply in_map_iff in H. destruct H as (x & <- & Hx). exists x. auto.
    + intros [[H _]|(x & [->|Hx] & ->)]; [discriminate|auto|].
      right. now apply in_map.
Qed.

(** X4. [B1_group_techniques] returns at most 150 rows, ordered by tactic
    and then technique name (nulls last).  Every row names a technique a
    matched group uses and either one of its tactics or, when it has none,
    a null tactic; a used technique without tactic is not dropped: its row
    with a null tactic is returned unless 150 rows are. *)
Theorem B1_rows (G : Graph) (group : string) :
  (List.length (Cypher.B1_group_techniques G group) <= 150)%nat /\
  StronglySorted
    (fun a b => ostr_leb (fst a) (fst b) = true /\
                (fst a = fst b -> ostr_leb (snd a) (snd b) = true))
    (Cypher.B1_group_techniques G group) /\
  (forall x y, In (x, y) (Cypher.B1_group_techniques G group) ->
     exists t, In t (Cypher.techniques_used G (Str.toLower group)) /\
               name t = y /\
               ((out_of G Cypher.in_tactic Cypher.tactic_ t = [] /\ x = None) \/
                (exists tac, In tac (out_of G Cypher.in_tactic Cypher.tactic_ t) /\
                             x = shortname tac))) /\
  (forall t, In t (Cypher.techniques_used G (Str.toLower group)) ->
     out_of G Cypher.in_tactic Cypher.tactic_ t = [] ->
     In (None, name t) (Cypher.B1_group_techniques G group) \/
     List.length (Cypher.B1_group_techniques G group) = 150%nat).
Proof.
  unfold Cypher.B1_group_techniques. cbv zeta.
  split; [apply limit_length|]. split; [|split].
  - eapply StronglySorted_impl; [|apply firstn_sorted, order_by_sorted].
    + intros a b H. apply pair_leb_spec, H.
    + apply pair_leb_total.
    + apply pair_leb_trans.
  - intros x y Hin. apply limit_order_In, in_flat_map in Hin.
    destruct Hin as (t & Ht & Hin). apply in_map_iff in Hin.
    destruct Hin as (o & Heq & Ho). inversion Heq; subst; clear Heq.
    exists t. split; [exact Ht|]. split; [reflexivity|].
    apply optional_In in Ho. destruct Ho as [[Hnil ->]|(tac & Htac & ->)];
      [left; auto|right; eauto].
  - intros t Ht Hnil. apply limit_order_kept_or_full, in_flat_map.
    exists t. split; [exact Ht|]. rewrite Hnil. now left.
Qed.

Lemma B1_rows_witness :
  In (None, Some "T1003") (Cypher.B1_group_techniques tactic_less "apt") \/
  List.length (Cypher.B1_group_techniques tactic_less "apt") = 150%nat.
Proof.
  apply (proj2 (proj2 (proj2 (B1_rows tactic_less "apt")))
           (sample_node 2 "attack-pattern" "T1003")).
  - left. reflexivity.
  - reflexivity.
Defined.

(** X5. [B2_group_software] returns at most 100 rows, ordered by kind and
    then name; every row is a [tool] or a [malware] entity that a matched
    group uses, with its [stix_type] as kind and its name. *)
Theorem B2_rows (G : Graph) (group : string) :
  (List.length (Cypher.B2_group_software G group) <= 100)%nat /\
  StronglySorted
    (fun a b => ostr_leb (fst a) (fst b) = true /\
                (fst a = fst b -> ostr_leb (snd a) (snd b) = true))
    (Cypher.B2_group_software G group) /\
  (forall k s, In (k, s) (Cypher.B2_group_software G group) ->
     (k = Some "tool" \/ k = Some "malware") /\
     exists grp sw,
       In grp (Cypher.groups_matching G (Str.toLower group)) /\
       In sw (out_of G (is_rel "uses") Cypher.software_ grp) /\
       stix_type sw = k /\ name sw = s).
Proof.
  unfold Cypher.B2_group_software. cbv zeta.
  split; [apply limit_length|]. split.
  - eapply StronglySorted_impl; [|apply firstn_sorted, order_by_sorted].
    + intros a b H. apply pair_leb_spec, H.
    + apply pair_leb_total.
    + apply pair_leb_trans.
  - intros k s Hin. apply limit_order_In, in_map_iff in Hin.
    destruct Hin as (sw & Heq & Hin). inversion Heq; subst; clear Heq.
    apply in_flat_map in Hin. destruct Hin as (grp & Hg & Hsw).
    split; [|eauto 6].
    assert (Hp : Cypher.software_ sw = true).
    { clear -Hsw. unfold out_of in Hsw. apply in_flat_map in Hsw.
      destruct Hsw as (r & _ & H).
      destruct (is_rel "uses" r && (src r =? nid grp)); [|contradiction].
      destruct (node_at G (dst r)) as [v|]; [|contradiction].
      destruct (Cypher.software_ v) eqn:Hv; [|contradiction].
      destruct H as [<-|[]]. exact Hv. }
    unfold Cypher.software_, str_is in Hp.
    destruct (stix_type sw) as [ty|]; [|now rewrite andb_false_r in Hp].
    apply andb_true_iff in Hp. destruct Hp as [_ Hp].
    apply orb_true_iff in Hp. destruct Hp as [Hp|Hp];
      apply String.eqb_eq in Hp; subst; auto.
Qed.

Lemma grouped_values A K V W (eqb : K -> K -> bool) (key : A -> K)
      (vals : A -> list W) (f : A -> W -> V) (l : list A) k :
  map snd (filter (fun r => eqb k (fst r))
             (flat_map (fun x => map (fun w => (key x, f x w)) (vals x)) l))
  = flat_map (fun x => map (f x) (vals x)) (filter (fun x => eqb k (key x)) l).
Proof.
  rewrite <- (group_values eqb key (fun x => map (f x) (vals x)) l k).
  f_equal. f_equal. apply flat_map_ext. intros x. now rewrite map_map.
Qed.

Lemma grouped_keys A K V W (key : A -> K) (vals : A -> list W)
      (f : A -> W -> V) (l : list A) k :
  In k (map fst (flat_map (fun x => map (fun w => (key x, f x w)) (vals x)) l))
  <-> exists x, In x l /\ vals x <> [] /\ key x = k.
Proof.
  rewrite in_map_iff. split.
  - intros ([k' v] & <- & Hin). apply in_flat_map in Hin.
    destruct Hin as (x & Hx & Hin). apply in_map_iff in Hin.
    destruct Hin as (w & Heq & Hw). inversion Heq; subst.
    exists x. repeat split; auto. intros Hnil. rewrite Hnil in Hw. contradiction.
  - intros (x & Hx & Hne & <-). destruct (vals x) as [|w ws] eqn:Hv; [congruence|].
    exists (key x, f x w). split; [reflexivity|]. apply in_flat_map.
    exists x. split; [exact Hx|]. rewrite Hv. now left.
Qed.

Lemma out_of_In G pr pn u v :
  In v (out_of G pr pn u) <->
  exists r, In r (rels G) /\ pr r = true /\ src r = nid u /\
            node_at G (dst r) = Some v /\ pn v = true.
Proof.
  unfold out_of. rewrite in_flat_map. split.
  - intros (r & Hr & H).
    destruct (pr r) eqn:Hp; [|contradiction].
    destruct (src r =? nid u) eqn:Hs; [|contradiction]. simpl in H.
    destruct (node_at G (dst r)) as [v'|] eqn:Hn; [|contradiction].
    destruct (pn v') eqn:Hv; [|contradiction].
    destruct H as [<-|[]]. apply Z.eqb_eq in Hs. exists r. auto.
  - intros (r & Hr & Hp & Hs & Hn & Hv). exists r. split; [exact Hr|].
    rewrite Hp, Hs, Z.eqb_refl, Hn, Hv. now left.
Qed.

Lemma into_In G pr pn u v :
  In v (into G pr pn u) <->
  exists r, In r (rels G) /\ pr r = true /\ dst r = nid u /\
            node_at G (src r) = Some v /\ pn v = true.
Proof.
  unfold into. rewrite in_flat_map. split.
  - intros (r & Hr & H).
    destruct (pr r) eqn:Hp; [|contradiction].
    destruct (dst r =? nid u) eqn:Hs; [|contradiction]. simpl in H.
    destruct (node_at G (src r)) as [v'|] eqn:Hn; [|contradiction].
    destruct (pn v') eqn:Hv; [|contradiction].
    destruct H as [<-|[]]. apply Z.eqb_eq in Hs. exists r. auto.
  - intros (r & Hr & Hp & Hs & Hn & Hv). exists r. split; [exact Hr|].
    rewrite Hp, Hs, Z.eqb_refl, Hn, Hv. now left.
Qed.

Lemma collect_distinct_In l m :
  In m (collect_distinct l) <-> In (Some m) l.
Proof.
  unfold collect_distinct. rewrite <- somes_In. split; [apply distinct_incl|].
  intros H.
  destruct (distinct_covers String.eqb String.eqb_refl
              (fun a b c Hab Hbc =>
                 proj2 (String.eqb_eq a c)
                   (eq_trans (proj1 (String.eqb_eq a b) Hab)
                             (proj1 (String.eqb_eq b c) Hbc)))
              _ _ H) as (y & Hy & Hyx).
  apply String.eqb_eq in Hyx. now subst.
Qed.

Lemma collect_distinct_NoDup l : NoDup (collect_distinct l).
Proof. apply distinct_NoDup, String.eqb_refl. Qed.

Lemma sorted_desc_by A (f : A -> Z) n (l : list A) :
  StronglySorted (fun a b => f b <= f a)
                 (limit n (order_by (Cypher.desc_by f) l)).
Proof.
  apply StronglySorted_impl with (R := precedes (Cypher.desc_by f)).
  - intros a b H. unfold precedes, Cypher.desc_by in H. now apply Z.leb_le.
  - apply firstn_sorted.
    apply order_by_sorted; [apply desc_by_total|apply desc_by_trans].
Qed.

(** X6. [B3_group_techniques_via_software] returns at most 20 rows, in
    descending order of the number of techniques listed.  Each row stands
    for one software entity used by a matched group that itself uses at
    least one technique; its list holds, without repetition, exactly the
    names of the techniques that software uses. *)
Theorem B3_rows (G : Graph) (group : string) :
  (List.length (Cypher.B3_group_techniques_via_software G group) <= 20)%nat /\
  StronglySorted
    (fun a b => Cypher.zlen (snd b) <= Cypher.zlen (snd a))
    (Cypher.B3_group_techniques_via_software G group) /\
  (forall x ts, In (x, ts) (Cypher.B3_group_techniques_via_software G group) ->
     NoDup ts /\
     exists grp s,
       In grp (Cypher.groups_matching G (Str.toLower group)) /\
       In s (out_of G (is_rel "uses") Cypher.software_ grp) /\
       name s = x /\
       out_of G (is_rel "uses") Cypher.technique s <> [] /\
       forall m, In m ts <->
                 exists tech, In tech (out_of G (is_rel "uses") Cypher.technique s) /\
                              name tech = Some m).
Proof.
  unfold Cypher.B3_group_techniques_via_software. cbv zeta.
  split; [apply limit_length|]. split; [apply sorted_desc_by|].
  intros x ts Hin. apply limit_order_In, in_map_iff in Hin.
  destruct Hin as ([s vs] & Heq & Hin). simpl in Heq. inversion Heq; subst; clear Heq.
  split; [apply collect_distinct_NoDup|].
  apply group_by_In in Hin. destruct Hin as [Hk ->].
  apply distinct_incl in Hk.
  apply (grouped_keys (fun s : Node => s)
           (out_of G (is_rel "uses") Cypher.technique)
           (fun _ tech => name tech)) in Hk.
  destruct Hk as (s' & Hs' & Hne & ->).
  apply in_flat_map in Hs'. destruct Hs' as (grp & Hgrp & Hs').
  exists grp, s. repeat split; auto.
  - intros Hm. apply collect_distinct_In in Hm.
    rewrite (grouped_values same_node (fun s : Node => s)
               (out_of G (is_rel "uses") Cypher.technique)
               (fun _ tech => name tech)) in Hm.
    apply in_flat_map in Hm. destruct Hm as (s2 & Hs2 & Hm).
    apply filter_In in Hs2. destruct Hs2 as [_ Hsame].
    rewrite <- (out_of_same_node G _ _ _ _ Hsame) in Hm.
    apply in_map_iff in Hm. destruct Hm as (tech & Hn & Ht). eauto.
  - intros (tech & Ht & Hn). apply collect_distinct_In.
    rewrite (grouped_values same_node (fun s : Node => s)
               (out_of G (is_rel "uses") Cypher.technique)
               (fun _ tech => name tech)).
    apply in_flat_map. exists s. split.
    + apply filter_In. split; [|apply same_node_refl].
      apply in_flat_map. eauto.
    + rewrite <- Hn. now apply in_map.
Qed.

(** X7. [B4_technique_users] returns at most 10 rows, one per technique
    name.  A row exists only for a name borne by a matching technique that
    at least one group uses; its list holds, without repetition, exactly
    the names of the groups using a matching technique of that name. *)
Theorem B4_rows (G : Graph) (tech : string) :
  (List.length (Cypher.B4_technique_users G tech) <= 10)%nat /\
  NoDup (map fst (Cypher.B4_technique_users G tech)) /\
  (forall x gs, In (x, gs) (Cypher.B4_technique_users G tech) ->
     NoDup gs /\
     (exists t, In t (nodes G) /\ Cypher.technique t = true /\
                name_contains (Str.toLower tech) t = true /\ name t = x /\
                into G (is_rel "uses") Cypher.group_ t <> []) /\
     forall g, In g gs <->
       exists t grp, In t (nodes G) /\ Cypher.technique t = true /\
                     name_contains (Str.toLower tech) t = true /\ name t = x /\
                     In grp (into G (is_rel "uses") Cypher.group_ t) /\
                     name grp = Some g).
Proof.
  unfold Cypher.B4_technique_users. cbv zeta.
  split; [apply limit_length|]. split.
  { unfold limit. rewrite <- firstn_map. apply firstn_NoDup.
    rewrite map_map. cbn [fst].
    change (fun x : option string * list (option string) => fst x) with
      (@fst (option string) (list (option string))).
    rewrite group_by_keys. apply distinct_NoDup, ostr_eqb_refl. }
  intros x gs Hin. apply firstn_In, in_map_iff in Hin.
  destruct Hin as ([k vs] & Heq & Hin). simpl in Heq. inversion Heq; subst; clear Heq.
  split; [apply collect_distinct_NoDup|].
  apply group_by_In in Hin. destruct Hin as [Hk ->].
  apply distinct_incl in Hk.
  apply (grouped_keys name (into G (is_rel "uses") Cypher.group_)
           (fun _ grp => name grp)) in Hk.
  destruct Hk as (t & Ht & Hne & <-).
  apply filter_In in Ht. destruct Ht as [Ht Hp].
  apply andb_true_iff in Hp. destruct Hp as [Htech Hmatch].
  split; [exists t; repeat split; auto|].
  intros g. rewrite collect_distinct_In.
  rewrite (grouped_values ostr_eqb name (into G (is_rel "uses") Cypher.group_)
             (fun _ grp => name grp)).
  rewrite in_flat_map. split.
  - intros (t' & Ht' & Hg). apply filter_In in Ht'. destruct Ht' as [Ht' Hk].
    apply filter_In in Ht'. destruct Ht' as [Ht' Hp].
    apply andb_true_iff in Hp. destruct Hp as [Htech' Hmatch'].
    apply ostr_eqb_eq in Hk. apply in_map_iff in Hg.
    destruct Hg as (grp & Hn & Hgrp). exists t', grp. repeat split; auto.
  - intros (t' & grp & Ht' & Htech' & Hmatch' & Hn & Hgrp & Hg).
    exists t'. split.
    + apply filter_In. split; [|now apply ostr_eqb_eq].
      apply filter_In. split; [exact Ht'|]. now rewrite Htech', Hmatch'.
    + rewrite <- Hg. now apply in_map.
Qed.

(** X8. [B5_top_groups_by_techniques] returns at most 20 rows, one per
    group name, in descending order of count.  The count of a row is the
    number of distinct techniques used by the groups of that name (a
    technique reached through several [uses] relations counts once) and is
    at least 1: a group that uses no technique has no row. *)
Theorem B5_rows (G : Graph) :
  (List.length (Cypher.B5_top_groups_by_techniques G) <= 20)%nat /\
  StronglySorted (fun a b => snd b <= snd a)
                 (Cypher.B5_top_groups_by_techniques G) /\
  NoDup (map fst (Cypher.B5_top_groups_by_techniques G)) /\
  (forall x n, In (x, n) (Cypher.B5_top_groups_by_techniques G) ->
     n = Cypher.zlen (techniques_of_groups_named G x) /\ 1 <= n).
Proof.
  unfold Cypher.B5_top_groups_by_techniques.
  split; [apply limit_length|]. split; [apply sorted_desc_by|]. split.
  { unfold limit. rewrite <- firstn_map. apply firstn_NoDup.
    eapply Permutation_NoDup;
      [symmetry; apply Permutation_map, order_by_perm|].
    rewrite map_map. cbn [fst].
    change (fun x : option string * list Node => fst x) with
      (@fst (option string) (list Node)).
    rewrite group_by_keys. apply distinct_NoDup, ostr_eqb_refl. }
  intros x n Hin. apply limit_order_In, in_map_iff in Hin.
  destruct Hin as ([k vs] & Heq & Hin). simpl in Heq. inversion Heq; subst; clear Heq.
  apply group_by_In in Hin. destruct Hin as [Hk ->].
  apply distinct_incl in Hk.
  apply (grouped_keys name (out_of G (is_rel "uses") Cypher.technique)
           (fun _ t => t)) in Hk.
  destruct Hk as (g & Hg & Hne & <-).
  rewrite (grouped_values ostr_eqb name (out_of G (is_rel "uses") Cypher.technique)
             (fun _ t => t)).
  unfold techniques_of_groups_named. rewrite filter_filter.
  assert (Heq : flat_map (fun g0 => map (fun t => t)
                   (out_of G (is_rel "uses") Cypher.technique g0))
                  (filter (fun g0 => Cypher.group_ g0 && ostr_eqb (name g) (name g0))
                          (nodes G))
                = flat_map (out_of G (is_rel "uses") Cypher.technique)
                  (filter (fun g0 => Cypher.group_ g0 && ostr_eqb (name g) (name g0))
                          (nodes G))).
  { apply flat_map_ext. intros g0. apply map_id. }
  rewrite Heq. split; [reflexivity|].
  destruct (out_of G (is_rel "uses") Cypher.technique g) as [|t ts] eqn:Ho;
    [congruence|].
  assert (Hin : In t (flat_map (out_of G (is_rel "uses") Cypher.technique)
                  (filter (fun g0 => Cypher.group_ g0 && ostr_eqb (name g) (name g0))
                          (nodes G)))).
  { apply in_flat_map. exists g. split; [|rewrite Ho; now left].
    apply filter_In in Hg. apply filter_In.
    split; [tauto|]. destruct Hg as [_ ->]. apply ostr_eqb_refl. }
  destruct (distinct_covers same_node same_node_refl same_node_trans _ _ Hin)
    as (y & Hy & _).
  unfold Cypher.zlen. destruct (distinct same_node _); [contradiction|].
  simpl List.length. lia.
Qed.

(* ===================================================================== *)
(** ** Mitigation and detection analysis, continued *)

(** X10. [C2_group_mitigation_gaps] returns at most 50 names in ascending
    order, nulls last.  Every name returned is the name of a technique a
    matched group uses and that no [mitigates] relation leaves, and every
    such technique has its name returned unless 50 rows are. *)
Theorem C2_rows (G : Graph) (group : string) :
  (List.length (Cypher.C2_group_mitigation_gaps G group) <= 50)%nat /\
  StronglySorted (fun a b => ostr_leb a b = true)
                 (Cypher.C2_group_mitigation_gaps G group) /\
  (forall x, In x (Cypher.C2_group_mitigation_gaps G group) ->
     exists t, In t (Cypher.techniques_used G (Str.toLower group)) /\
               name t = x /\
               out_of G (is_rel "mitigates") Cypher.mitigation t = []) /\
  (forall t, In t (Cypher.techniques_used G (Str.toLower group)) ->
     out_of G (is_rel "mitigates") Cypher.mitigation t = [] ->
     In (name t) (Cypher.C2_group_mitigation_gaps G group) \/
     List.length (Cypher.C2_group_mitigation_gaps G group) = 50%nat).
Proof.
  unfold Cypher.C2_group_mitigation_gaps. cbv zeta.
  split; [apply limit_length|]. split; [|split].
  - apply firstn_sorted, order_by_sorted;
      [apply ostr_leb_total|apply ostr_leb_trans].
  - intros x Hin. apply limit_order_In in Hin. now apply gap_names.
  - intros t Ht Hnil. apply limit_order_kept_or_full, gap_names. eauto.
Qed.

Lemma C2_rows_witness :
  In (Some "T1003") (Cypher.C2_group_mitigation_gaps tactic_less "APT29") \/
  List.length (Cypher.C2_group_mitigation_gaps tactic_less "APT29") = 50%nat.
Proof.
  apply (proj2 (proj2 (proj2 (C2_rows tactic_less "APT29")))
           (sample_node 2 "attack-pattern" "T1003")).
  - left. reflexivity.
  - reflexivity.
Defined.

Lemma detections_rows_In G f x (d s : option string) :
  In (x, (d, s))
     (flat_map (fun tech =>
        flat_map (fun dc =>
          map (fun ds => (name tech,
                          (match dc with Some n => name n | None => None end,
                           match ds with Some n => name n | None => None end)))
              (optional (into G (is_rel "detects") Cypher.data_source tech)))
          (optional (into G (is_rel "detects") Cypher.data_component tech)))
        (filter (fun n => Cypher.technique n && name_contains (Str.toLower f) n)
                (nodes G))) <->
  exists t dc ds,
    technique_matching G f t /\ name t = x /\
    In dc (optional (into G (is_rel "detects") Cypher.data_component t)) /\
    In ds (optional (into G (is_rel "detects") Cypher.data_source t)) /\
    d = match dc with Some n => name n | None => None end /\
    s = match ds with Some n => name n | None => None end.
Proof.
  unfold technique_matching. rewrite in_flat_map. split.
  - intros (t & Ht & Hin). apply filter_In in Ht. destruct Ht as [Ht Hp].
    apply andb_true_iff in Hp. apply in_flat_map in Hin.
    destruct Hin as (dc & Hdc & Hin). apply in_map_iff in Hin.
    destruct Hin as (ds & Heq & Hds). inversion Heq; subst.
    exists t, dc, ds. tauto.
  - intros (t & dc & ds & (Ht & Htech & Hm) & <- & Hdc & Hds & -> & ->).
    exists t. split; [apply filter_In; rewrite Htech, Hm; auto|].
    apply in_flat_map. exists dc. split; [exact Hdc|].
    apply in_map_iff. exists ds. auto.
Qed.

(** X11. [C4_detections_for_tech] has exactly one row per name of a
    matching technique, also for techniques that nothing detects (the
    query has no limit).  The two lists of a row hold, without repetition,
    exactly the names of the data components and of the data sources with
    a [detects] relation onto a matching technique of that name; they are
    empty when there is none. *)
Theorem C4_rows (G : Graph) (tech : string) :
  NoDup (map (fun r => fst (fst r)) (Cypher.C4_detections_for_tech G tech)) /\
  (forall x,
      In x (map (fun r => fst (fst r)) (Cypher.C4_detections_for_tech G tech)) <->
      exists t, technique_matching G tech t /\ name t = x) /\
  (forall x dcs dss, In (x, dcs, dss) (Cypher.C4_detections_for_tech G tech) ->
     NoDup dcs /\ NoDup dss /\
     (forall d, In d dcs <->
        exists t dc, technique_matching G tech t /\ name t = x /\
                     In dc (into G (is_rel "detects") Cypher.data_component t) /\
                     name dc = Some d) /\
     (forall d, In d dss <->
        exists t ds, technique_matching G tech t /\ name t = x /\
                     In ds (into G (is_rel "detects") Cypher.data_source t) /\
                     name ds = Some d)).
Proof.
  unfold Cypher.C4_detections_for_tech. cbv zeta.
  set (rows0 := flat_map _ _).
  assert (Hkeys : forall x, In x (map fst rows0) <->
                    exists t, technique_matching G tech t /\ name t = x).
  { intros x. rewrite in_map_iff. split.
    - intros ([k [d s]] & <- & Hin). apply detections_rows_In in Hin.
      destruct Hin as (t & _ & _ & Ht & Hn & _). simpl. exists t. auto.
    - intros (t & Ht & <-).
      destruct (optional_inhabited (into G (is_rel "detects") Cypher.data_component t))
        as (dc & Hdc).
      destruct (optional_inhabited (into G (is_rel "detects") Cypher.data_source t))
        as (ds & Hds).
      eexists (name t, (_, _)). split; [reflexivity|].
      apply detections_rows_In. exists t, dc, ds. repeat split; auto; apply Ht. }
  split; [|split].
  - rewrite map_map. cbn [fst].
    change (fun x : option string * list (option string * option string) => fst x)
      with (@fst (option string) (list (option string * option string))).
    rewrite group_by_keys. apply distinct_NoDup, ostr_eqb_refl.
  - intros x. rewrite map_map. cbn [fst].
    change (fun x : option string * list (option string * option string) => fst x)
      with (@fst (option string) (list (option string * option string))).
    rewrite group_by_keys, distinct_In_eq. apply Hkeys.
  - intros x dcs dss Hin. apply in_map_iff in Hin.
    destruct Hin as ([k vs] & Heq & Hin). simpl in Heq.
    inversion Heq; subst; clear Heq.
    apply group_by_In in Hin. destruct Hin as [_ ->].
    split; [apply collect_distinct_NoDup|].
    split; [apply collect_distinct_NoDup|].
    split; intros d; rewrite collect_distinct_In, map_map, in_map_iff; split.
    + intros ([k [d' s]] & Hd & Hin). simpl in Hd. subst d'.
      apply filter_In in Hin. destruct Hin as [Hin Hk]. simpl in Hk.
      apply ostr_eqb_eq in Hk. subst k. apply detections_rows_In in Hin.
      destruct Hin as (t & dc & ds & Ht & Hn & Hdc & _ & Hd & _).
      apply optional_In in Hdc. destruct Hdc as [[_ ->]|(n & Hn' & ->)];
        [discriminate|]. exists t, n. auto.
    + intros (t & dc & Ht & Hn & Hdc & Hd).
      destruct (optional_inhabited (into G (is_rel "detects") Cypher.data_source t))
        as (ds & Hds).
      eexists (x, (Some d, _)). split; [reflexivity|]. apply filter_In.
      split; [|apply ostr_eqb_refl]. apply detections_rows_In.
      exists t, (Some dc), ds.
      split; [exact Ht|]. split; [exact Hn|].
      split; [apply optional_In; right; eauto|]. split; [exact Hds|].
      split; [now rewrite Hd|reflexivity].
    + intros ([k [d' s]] & Hd & Hin). simpl in Hd. subst s.
      apply filter_In in Hin. destruct Hin as [Hin Hk]. simpl in Hk.
      apply ostr_eqb_eq in Hk. subst k. apply detections_rows_In in Hin.
      destruct Hin as (t & dc & ds & Ht & Hn & _ & Hds & _ & Hd).
      apply optional_In in Hds. destruct Hds as [[_ ->]|(n & Hn' & ->)];
        [discriminate|]. exists t, n. auto.
    + intros (t & ds & Ht & Hn & Hds & Hd).
      destruct (optional_inhabited (into G (is_rel "detects") Cypher.data_component t))
        as (dc & Hdc).
      eexists (x, (_, Some d)). split; [reflexivity|]. apply filter_In.
      split; [|apply ostr_eqb_refl]. apply detections_rows_In.
      exists t, dc, (Some ds).
      split; [exact Ht|]. split; [exact Hn|]. split; [exact Hdc|].
      split; [apply optional_In; right; eauto|].
      split; [reflexivity|now rewrite Hd].
Qed.

(* ===================================================================== *)
(** ** Taxonomy and structural analysis *)

Lemma In_length_pos A (l : list A) x : In x l -> (1 <= List.length l)%nat.
Proof. destruct l; [contradiction|simpl; lia]. Qed.


(** X13. [D2_subtechniques] returns at most 20 rows, one per parent name,
    in descending order of the number of sub-technique names listed.  The
    names listed under a parent name are exactly the non-null names of the
    techniques with a [subtechnique-of] relation to a technique of that
    name. *)
Theorem D2_rows (G : Graph) :
  (List.length (Cypher.D2_subtechniques G) <= 20)%nat /\
  StronglySorted (fun a b => Cypher.zlen (snd b) <= Cypher.zlen (snd a))
                 (Cypher.D2_subtechniques G) /\
  NoDup (map fst (Cypher.D2_subtechniques G)) /\
  (forall x subs, In (x, subs) (Cypher.D2_subtechniques G) ->
     forall m, In m subs <->
       exists sub parent,
         In sub (nodes G) /\ Cypher.technique sub = true /\
         In parent (out_of G (is_rel "subtechnique-of") Cypher.technique sub) /\
         name parent = x /\ name sub = Some m).
Proof.
  unfold Cypher.D2_subtechniques.
  split; [apply limit_length|]. split; [apply sorted_desc_by|]. split.
  { unfold limit. rewrite <- firstn_map. apply firstn_NoDup.
    eapply Permutation_NoDup;
      [symmetry; apply Permutation_map, order_by_perm|].
    rewrite map_map. cbn [fst].
    change (fun x : option string * list (option string) => fst x)
      with (@fst (option string) (list (option string))).
    rewrite group_by_keys. apply distinct_NoDup, ostr_eqb_refl. }
  intros x subs Hin m. apply limit_order_In, in_map_iff in Hin.
  destruct Hin as ([k vs] & Heq & Hin). simpl in Heq.
  inversion Heq; subst; clear Heq.
  apply group_by_In in Hin. destruct Hin as [_ ->].
  unfold collect. rewrite somes_In, in_map_iff. split.
  - intros ([k v] & Hv & Hin). simpl in Hv. subst v.
    apply filter_In in Hin. destruct Hin as [Hin Hk]. simpl in Hk.
    apply ostr_eqb_eq in Hk. subst k.
    apply in_flat_map in Hin. destruct Hin as (sub & Hsub & Hin).
    apply filter_In in Hsub. apply in_map_iff in Hin.
    destruct Hin as (parent & Heq & Hp). inversion Heq.
    exists sub, parent. tauto.
  - intros (sub & parent & Hsub & Htech & Hp & Hn & Hm).
    exists (x, Some m). split; [reflexivity|]. apply filter_In.
    split; [|apply ostr_eqb_refl]. apply in_flat_map. exists sub.
    split; [apply filter_In; auto|]. apply in_map_iff. exists parent.
    split; [now rewrite Hn, Hm|exact Hp].
Qed.

Lemma filter_single (l : list string) p :
  NoDup l -> In p l -> filter (String.eqb p) l = [p].
Proof.
  induction 1 as [|x l Hx Hl IH]; [contradiction|]. simpl. intros [->|Hin].
  - rewrite String.eqb_refl. f_equal.
    clear IH. induction l as [|y l IHl]; [reflexivity|]. simpl.
    destruct (String.eqb_spec p y) as [->|_].
    + exfalso. apply Hx. now left.
    + apply IHl.
      * intros H. apply Hx. now right.
      * now inversion Hl.
  - destruct (String.eqb_spec p x) as [->|_]; [contradiction|]. now apply IH.
Qed.

(** The rows of a breakdown over a fixed list of labels: a row per label
    that at least one node carries, with the number of such nodes. *)
Lemma breakdown_rows (labels : list string) (has : string -> Node -> bool)
      (G : Graph) p n :
  NoDup labels ->
  (In (p, n)
      (map (fun kv : string * list Node => (fst kv, Cypher.zlen (snd kv)))
         (group_by String.eqb
            (flat_map (fun label =>
               map (fun nd => (label, nd)) (filter (has label) (nodes G)))
               labels))) <->
   In p labels /\ n = Cypher.zlen (filter (has p) (nodes G)) /\ 1 <= n).
Proof.
  intros Hnd.
  assert (Hvals : In p labels ->
            map snd (filter (fun r : string * Node => String.eqb p (fst r))
              (flat_map (fun label =>
                 map (fun nd => (label, nd)) (filter (has label) (nodes G)))
                 labels))
            = filter (has p) (nodes G)).
  { intros Hp.
    rewrite (grouped_values String.eqb (fun l : string => l)
               (fun l => filter (has l) (nodes G)) (fun _ nd => nd)).
    cbv beta.
    change (fun x : string => String.eqb p x) with (String.eqb p).
    rewrite (@filter_single labels p Hnd Hp). simpl. rewrite app_nil_r. apply map_id. }
  assert (Hkey : In p (distinct String.eqb (map fst
              (flat_map (fun label =>
                 map (fun nd => (label, nd)) (filter (has label) (nodes G)))
                 labels))) <->
            In p labels /\ filter (has p) (nodes G) <> []).
  { split.
    - intros H. apply distinct_incl in H.
      apply (grouped_keys (fun l : string => l)
               (fun l => filter (has l) (nodes G)) (fun _ nd => nd)) in H.
      destruct H as (q & Hq & Hne & <-). auto.
    - intros [Hp Hne].
      assert (H : In p (map fst
              (flat_map (fun label =>
                 map (fun nd => (label, nd)) (filter (has label) (nodes G)))
                 labels))).
      { apply (grouped_keys (fun l : string => l)
               (fun l => filter (has l) (nodes G)) (fun _ nd => nd)).
        exists p. auto. }
      destruct (distinct_covers String.eqb String.eqb_refl
                  (fun a b c Hab Hbc =>
                     proj2 (String.eqb_eq a c)
                       (eq_trans (proj1 (String.eqb_eq a b) Hab)
                                 (proj1 (String.eqb_eq b c) Hbc)))
                  _ _ H) as (y & Hy & Hyx).
      apply String.eqb_eq in Hyx. now subst. }
  rewrite in_map_iff. split.
  - intros ([k vs] & Heq & Hin). simpl in Heq. inversion Heq; subst; clear Heq.
    apply group_by_In in Hin. destruct Hin as [Hk ->].
    apply Hkey in Hk. destruct Hk as [Hp Hne].
    rewrite (Hvals Hp). repeat split; auto.
    unfold Cypher.zlen. destruct (filter (has p) (nodes G)); [congruence|].
    simpl List.length. lia.
  - intros (Hp & -> & Hpos). eexists (p, _). split.
    + simpl. rewrite <- (Hvals Hp). reflexivity.
    + apply group_by_In. split; [|reflexivity]. apply Hkey. split; [exact Hp|].
      intros Hnil. rewrite Hnil in Hpos. unfold Cypher.zlen in Hpos. simpl in Hpos. lia.
Qed.

Lemma breakdown_keys (labels : list string) (has : string -> Node -> bool)
      (G : Graph) :
  NoDup (map fst
    (order_by (Cypher.desc_by snd)
      (map (fun kv : string * list Node => (fst kv, Cypher.zlen (snd kv)))
         (group_by String.eqb
            (flat_map (fun label =>
               map (fun nd => (label, nd)) (filter (has label) (nodes G)))
               labels))))).
Proof.
  eapply Permutation_NoDup;
    [symmetry; apply Permutation_map, order_by_perm|].
  rewrite map_map. cbn [fst].
  change (fun x : string * list Node => fst x) with (@fst string (list Node)).
  rewrite group_by_keys. apply distinct_NoDup, String.eqb_refl.
Qed.

Lemma platform_labels_NoDup : NoDup Cypher.platform_labels.
Proof.
  unfold Cypher.platform_labels.
  repeat (constructor; [simpl; intuition discriminate|]). constructor.
Qed.

Lemma domain_labels_NoDup : NoDup Cypher.domain_labels.
Proof.
  unfold Cypher.domain_labels.
  repeat (constructor; [simpl; intuition discriminate|]). constructor.
Qed.

(** X14. [D3_techniques_by_platform] has a row exactly for each of the nine
    platform labels that at least one technique carries (compared in lower
    case), with the number of those techniques; a label no technique
    carries has no row, a technique without [platforms] is counted
    nowhere.  Rows are in descending order of count, one per label. *)
Theorem D3_rows (G : Graph) :
  NoDup (map fst (Cypher.D3_techniques_by_platform G)) /\
  StronglySorted (fun a b => snd b <= snd a) (Cypher.D3_techniques_by_platform G) /\
  (forall p n,
      In (p, n) (Cypher.D3_techniques_by_platform G) <->
      In p Cypher.platform_labels /\
      n = Cypher.zlen (filter (fun t => Cypher.technique t && carries p (platforms t))
                              (nodes G)) /\
      1 <= n).
Proof.
  unfold Cypher.D3_techniques_by_platform.
  split; [apply breakdown_keys|]. split.
  - rewrite <- (firstn_all (order_by _ _)). apply sorted_desc_by.
  - intros p n. rewrite order_by_In.
    apply (breakdown_rows
             (fun p t => Cypher.technique t && carries p (platforms t))).
    apply platform_labels_NoDup.
Qed.

(** X15. [D4_domain_breakdown] has a row exactly for each of the three
    domain labels that at least one [:Attack] node carries, with the number
    of those nodes; a label no node carries has no row.  Rows are in
    descending order of count, one per label. *)
Theorem D4_rows (G : Graph) :
  NoDup (map fst (Cypher.D4_domain_breakdown G)) /\
  StronglySorted (fun a b => snd b <= snd a) (Cypher.D4_domain_breakdown G) /\
  (forall p n,
      In (p, n) (Cypher.D4_domain_breakdown G) <->
      In p Cypher.domain_labels /\
      n = Cypher.zlen (filter (fun nd => attack nd && carries p (domains nd))
                              (nodes G)) /\
      1 <= n).
Proof.
  unfold Cypher.D4_domain_breakdown.
  split; [apply breakdown_keys|]. split.
  - rewrite <- (firstn_all (order_by _ _)). apply sorted_desc_by.
  - intros p n. rewrite order_by_In.
    apply (breakdown_rows (fun p nd => attack nd && carries p (domains nd))).
    apply domain_labels_NoDup.
Qed.

(** Sorting in descending order of [f] puts the rows at or above a bound
    before the rows below it, each part sorted as it would be alone. *)
Section StableSplit.
Variable A : Type.
Variable f : A -> Z.
Variable c : Z.



End StableSplit.




(* ===================================================================== *)
(** ** Software pivot *)

Lemma pivot_rows_In G f x (g t : option string) :
  In (x, (g, t))
     (flat_map (fun s =>
        flat_map (fun grp =>
          map (fun tech => (name s,
                            (match grp with Some n => name n | None => None end,
                             match tech with Some n => name n | None => None end)))
              (optional (out_of G (is_rel "uses") Cypher.technique s)))
          (optional (into G (is_rel "uses") Cypher.group_ s)))
        (filter (fun s => Cypher.software_ s && name_contains (Str.toLower f) s)
                (nodes G))) <->
  exists s grp tech,
    software_matching G f s /\ name s = x /\
    In grp (optional (into G (is_rel "uses") Cypher.group_ s)) /\
    In tech (optional (out_of G (is_rel "uses") Cypher.technique s)) /\
    g = match grp with Some n => name n | None => None end /\
    t = match tech with Some n => name n | None => None end.
Proof.
  unfold software_matching. rewrite in_flat_map. split.
  - intros (s & Hs & Hin). apply filter_In in Hs. destruct Hs as [Hs Hp].
    apply andb_true_iff in Hp. apply in_flat_map in Hin.
    destruct Hin as (grp & Hgrp & Hin). apply in_map_iff in Hin.
    destruct Hin as (tech & Heq & Htech). inversion Heq; subst.
    exists s, grp, tech. tauto.
  - intros (s & grp & tech & (Hs & Hsw & Hm) & <- & Hgrp & Htech & -> & ->).
    exists s. split; [apply filter_In; rewrite Hsw, Hm; auto|].
    apply in_flat_map. exists grp. split; [exact Hgrp|].
    apply in_map_iff. exists tech. auto.
Qed.

(** X17. [E3_software_pivot] has exactly one row per name of a matching
    software entity, also for software no group uses and that uses no
    technique (both lists are then empty).  The groups of a row are,
    without repetition, exactly the names of the groups using a matching
    software of that name.  The techniques are at most 25 distinct names of
    techniques such software uses, and a technique name is left out only
    when 25 are listed. *)
Theorem E3_rows (G : Graph) (software : string) :
  NoDup (map (fun r => fst (fst r)) (Cypher.E3_software_pivot G software)) /\
  (forall x,
      In x (map (fun r => fst (fst r)) (Cypher.E3_software_pivot G software)) <->
      exists s, software_matching G software s /\ name s = x) /\
  (forall x gs ts, In (x, gs, ts) (Cypher.E3_software_pivot G software) ->
     NoDup gs /\ NoDup ts /\ (List.length ts <= 25)%nat /\
     (forall g, In g gs <->
        exists s grp, software_matching G software s /\ name s = x /\
                      In grp (into G (is_rel "uses") Cypher.group_ s) /\
                      name grp = Some g) /\
     (forall m, In m ts ->
        exists s tech, software_matching G software s /\ name s = x /\
                       In tech (out_of G (is_rel "uses") Cypher.technique s) /\
                       name tech = Some m) /\
     (forall s tech m,
        software_matching G software s -> name s = x ->
        In tech (out_of G (is_rel "uses") Cypher.technique s) ->
        name tech = Some m ->
        In m ts \/ List.length ts = 25%nat)).
Proof.
  unfold Cypher.E3_software_pivot. cbv zeta.
  set (rows0 := flat_map _ _).
  assert (Hkeys : forall x, In x (map fst rows0) <->
                    exists s, software_matching G software s /\ name s = x).
  { intros x. rewrite in_map_iff. split.
    - intros ([k [g t]] & <- & Hin). apply pivot_rows_In in Hin.
      destruct Hin as (s & _ & _ & Hs & Hn & _). simpl. exists s. auto.
    - intros (s & Hs & <-).
      destruct (optional_inhabited (into G (is_rel "uses") Cypher.group_ s))
        as (grp & Hgrp).
      destruct (optional_inhabited (out_of G (is_rel "uses") Cypher.technique s))
        as (tech & Htech).
      eexists (name s, (_, _)). split; [reflexivity|].
      apply pivot_rows_In. exists s, grp, tech. repeat split; auto; apply Hs. }
  assert (Htechs : forall x m,
            In (Some m) (map snd (map snd
               (filter (fun r : option string * (option string * option string) =>
                          ostr_eqb x (fst r)) rows0))) <->
            exists s tech, software_matching G software s /\ name s = x /\
                           In tech (out_of G (is_rel "uses") Cypher.technique s) /\
                           name tech = Some m).
  { intros x m. rewrite map_map, in_map_iff. split.
    - intros ([k [g t]] & Hd & Hin). simpl in Hd. subst t.
      apply filter_In in Hin. destruct Hin as [Hin Hk]. simpl in Hk.
      apply ostr_eqb_eq in Hk. subst k. apply pivot_rows_In in Hin.
      destruct Hin as (s & grp & tech & Hs & Hn & _ & Htech & _ & Hd).
      apply optional_In in Htech. destruct Htech as [[_ ->]|(n & Hn' & ->)];
        [discriminate|]. exists s, n. auto.
    - intros (s & tech & Hs & Hn & Htech & Hd).
      destruct (optional_inhabited (into G (is_rel "uses") Cypher.group_ s))
        as (grp & Hgrp).
      eexists (x, (_, Some m)). split; [reflexivity|]. apply filter_In.
      split; [|apply ostr_eqb_refl]. apply pivot_rows_In.
      exists s, grp, (Some tech).
      split; [exact Hs|]. split; [exact Hn|]. split; [exact Hgrp|].
      split; [apply optional_In; right; eauto|].
      split; [reflexivity|now rewrite Hd]. }
  split; [|split].
  - rewrite map_map. cbn [fst].
    change (fun x : option string * list (option string * option string) => fst x)
      with (@fst (option string) (list (option string * option string))).
    rewrite group_by_keys. apply distinct_NoDup, ostr_eqb_refl.
  - intros x. rewrite map_map. cbn [fst].
    change (fun x : option string * list (option string * option string) => fst x)
      with (@fst (option string) (list (option string * option string))).
    rewrite group_by_keys, distinct_In_eq. apply Hkeys.
  - intros x gs ts Hin. apply in_map_iff in Hin.
    destruct Hin as ([k vs] & Heq & Hin). cbn [fst snd] in Heq.
    apply pair_equal_spec in Heq. destruct Heq as [Heq <-].
    apply pair_equal_spec in Heq. destruct Heq as [<- <-].
    apply group_by_In in Hin. destruct Hin as [_ ->].
    split; [apply collect_distinct_NoDup|].
    split; [apply firstn_NoDup, collect_distinct_NoDup|].
    split; [apply firstn_le_length|].
    split; [|split].
    + intros g. rewrite collect_distinct_In, map_map, in_map_iff. split.
      * intros ([k' [g' t]] & Hd & Hin). simpl in Hd. subst g'.
        apply filter_In in Hin. destruct Hin as [Hin Hk]. simpl in Hk.
        apply ostr_eqb_eq in Hk. subst k'. apply pivot_rows_In in Hin.
        destruct Hin as (s & grp & tech & Hs & Hn & Hgrp & _ & Hd & _).
        apply optional_In in Hgrp. destruct Hgrp as [[_ ->]|(n & Hn' & ->)];
          [discriminate|]. exists s, n. auto.
      * intros (s & grp & Hs & Hn & Hgrp & Hd).
        destruct (optional_inhabited (out_of G (is_rel "uses") Cypher.technique s))
          as (tech & Htech).
        eexists (k, (Some g, _)). split; [reflexivity|]. apply filter_In.
        split; [|apply ostr_eqb_refl]. apply pivot_rows_In.
        exists s, (Some grp), tech.
        split; [exact Hs|]. split; [exact Hn|].
        split; [apply optional_In; right; eauto|]. split; [exact Htech|].
        split; [now rewrite Hd|reflexivity].
    + intros m Hm. apply firstn_In, collect_distinct_In in Hm.
      now apply Htechs.
    + intros s tech m Hs Hn Htech Hm.
      apply (limit_kept_or_full 25), collect_distinct_In, Htechs.
      exists s, tech. auto.
Qed.

Lemma E3_rows_witness :
  In (Some "Mimikatz", [], ["Credential Dumping"])
     (Cypher.E3_software_pivot lone_software "mimi") /\
  (In "Credential Dumping" ["Credential Dumping"] \/
   List.length ["Credential Dumping"] = 25%nat).
Proof.
  assert (Hrow : In (Some "Mimikatz", [], ["Credential Dumping"])
                    (Cypher.E3_software_pivot lone_software "mimi"))
    by (left; reflexivity).
  split; [exact Hrow|].
  apply (proj2 (proj2 (proj2 (proj2 (proj2
           (proj2 (proj2 (E3_rows lone_software "mimi")) _ _ _ Hrow)))))
           (sample_node 1 "tool" "Mimikatz")
           (sample_node 2 "attack-pattern" "Credential Dumping")).
  - repeat split. left. reflexivity.
  - reflexivity.
  - left. reflexivity.
  - reflexivity.
Defined.

(* ===================================================================== *)
(** ** The substring filter *)

Lemma prefix_spec a s :
  String.prefix a s = true <-> exists post, s = (a ++ post)%string.
Proof.
  revert s. induction a as [|c a IH]; intros s.
  - split; [intros _; now exists s|intros _; destruct s; reflexivity].
  - destruct s as [|c' s]; simpl;
      [split; [discriminate|intros (p & H); discriminate]|].
    destruct (ascii_dec c c') as [->|Hc].
    + rewrite IH. split; intros (post & H); exists post; [now rewrite H|].
      now inversion H.
    + split; [discriminate|]. intros (post & H). inversion H. congruence.
Qed.

Lemma contains_spec s sub :
  Str.contains s sub = true <->
  exists pre post, s = (pre ++ sub ++ post)%string.
Proof.
  induction s as [|c s IH].
  - cbn [Str.contains]. rewrite orb_false_r, prefix_spec. split.
    + intros (post & H). now exists "", post.
    + intros (pre & post & H). destruct pre; [now exists post|discriminate].
  - cbn [Str.contains]. rewrite orb_true_iff, prefix_spec, IH. split.
    + intros [(post & H)|(pre & post & H)].
      * now exists "", post.
      * exists (String c pre), post. simpl. now rewrite H.
    + intros (pre & post & H). destruct pre as [|c' pre].
      * left. now exists post.
      * right. simpl in H. inversion H. now exists pre, post.
Qed.

Lemma string_app_assoc (a b c : string) :
  ((a ++ b) ++ c = a ++ b ++ c)%string.
Proof. induction a as [|x a IH]; simpl; [|rewrite IH]; reflexivity. Qed.

Lemma contains_trans s mid sub :
  Str.contains s mid = true -> Str.contains mid sub = true ->
  Str.contains s sub = true.
Proof.
  rewrite !contains_spec. intros (p1 & q1 & ->) (p2 & q2 & ->).
  exists (p1 ++ p2)%string, (q2 ++ q1)%string.
  now rewrite !string_app_assoc.
Qed.

(** X18. The group filter shared by the group-matching queries selects
    exactly the [intrusion-set] nodes whose name, in lower case, contains
    the lower-cased filter.  A group without a name is selected by no
    filter, the empty filter selects every named group, and a filter that
    contains another one selects no group the other one does not. *)
Theorem group_filter_is_substring_match (G : Graph) (f : string) :
  (forall n,
      In n (Cypher.groups_matching G (Str.toLower f)) <->
      In n (nodes G) /\ Cypher.group_ n = true /\
      exists s pre post,
        name n = Some s /\
        Str.toLower s = (pre ++ Str.toLower f ++ post)%string) /\
  (forall n, In n (nodes G) -> Cypher.group_ n = true -> name n <> None ->
             In n (Cypher.groups_matching G (Str.toLower ""))) /\
  (forall f' n,
      Str.contains (Str.toLower f') (Str.toLower f) = true ->
      In n (Cypher.groups_matching G (Str.toLower f')) ->
      In n (Cypher.groups_matching G (Str.toLower f))).
Proof.
  assert (Hspec : forall g n,
      In n (Cypher.groups_matching G g) <->
      In n (nodes G) /\ Cypher.group_ n = true /\
      exists s, name n = Some s /\ Str.contains (Str.toLower s) g = true).
  { intros g n. unfold Cypher.groups_matching, name_contains.
    rewrite filter_In, andb_true_iff. split.
    - intros (Hn & Hg & Hc). destruct (name n) as [s|]; [|discriminate]. eauto.
    - intros (Hn & Hg & s & Hs & Hc). rewrite Hs. auto. }
  split; [|split].
  - intros n. rewrite Hspec. split.
    + intros (Hn & Hg & s & Hs & Hc). apply contains_spec in Hc.
      destruct Hc as (pre & post & Hc). eauto 8.
    + intros (Hn & Hg & s & pre & post & Hs & Hc).
      repeat split; auto. exists s. split; [exact Hs|].
      apply contains_spec. eauto.
  - intros n Hn Hg Hname. apply Hspec. repeat split; auto.
    destruct (name n) as [s|]; [|congruence]. exists s. split; [reflexivity|].
    apply contains_spec. now exists "", (Str.toLower s).
  - intros f' n Hc Hin. apply Hspec in Hin. apply Hspec.
    destruct Hin as (Hn & Hg & s & Hs & Hc'). repeat split; auto.
    exists s. split; [exact Hs|]. eapply contains_trans; eauto.
Qed.

Lemma group_filter_is_substring_match_witness :
  In (sample_node 1 "intrusion-set" "APT29")
     (Cypher.groups_matching unconnected_groups (Str.toLower "PT")).
Proof.
  apply (proj2 (proj2 (group_filter_is_substring_match unconnected_groups "PT"))
           "apt2").
  - reflexivity.
  - left. reflexivity.
Defined.

(* ===================================================================== *)
(** ** Materialization and execution *)

Lemma get_own_keys (r : Record_) :
  NoDup (map fst r) ->
  map (get r) (map fst r) = map (fun kv => Some (snd kv)) r.
Proof.
  induction r as [|[k v] r IH]; [reflexivity|]. simpl. intros Hnd.
  inversion Hnd as [|? ? Hk Hr]; subst.
  unfold get at 1. simpl. rewrite String.eqb_refl. simpl. f_equal.
  rewrite <- (IH Hr). apply map_ext_in. intros c Hc.
  unfold get. simpl. destruct (String.eqb_spec k c) as [->|_]; [contradiction|].
  reflexivity.
Qed.

Lemma columns_of_NoDup q : NoDup (columns_of q).
Proof.
  destruct q; simpl;
    repeat (constructor; [simpl; intuition discriminate|]); constructor.
Qed.

(** X19. Materializing the records of any catalog query keeps every value
    in place: the table has one row per record, in the order of the
    records, and the cells of a row are the values of its record in RETURN
    order, none missing. *)
Theorem materialized_cells (E : Engine) (G : Graph) (q : Query)
        (recs : list Record_) :
  run E G q = inr recs ->
  data (DataFrame_of recs) = map (fun r => map (fun kv => Some (snd kv)) r) recs.
Proof.
  intros Hrun. pose proof (run_keys E G q Hrun) as Hkeys.
  destruct recs as [|r0 recs0] eqn:Hrecs; [reflexivity|]. rewrite <- Hrecs in *.
  unfold DataFrame_of. cbn [data].
  rewrite (union_of_equal_keys (cols := columns_of q)) by (auto; congruence).
  assert (Hd : distinct String.eqb (columns_of q) = columns_of q)
    by (destruct q; reflexivity).
  rewrite Hd. apply map_ext_in. intros r Hr.
  rewrite Forall_forall in Hkeys. specialize (Hkeys r Hr).
  rewrite <- Hkeys. apply get_own_keys. rewrite Hkeys. apply columns_of_NoDup.
Qed.

Lemma materialized_cells_witness :
  data (DataFrame_of [[("nodes", VInt 3)]]) = [[Some (VInt 3)]].
Proof.
  apply (@materialized_cells sample_engine homonyms Q_A1_nodes
           [[("nodes", VInt 3)]]).
  reflexivity.
Defined.

Lemma query_steps d q w :
  match session_fails d with
  | Some e => AttackKG.query d q w = (inl e, w)
  | None =>
      let s := next_session w in
      AttackKG.query d q w
      = (match respond d q with
         | RunFails e => inl e
         | Answers r => df_from_result r
         end,
         mkWorld (open_sessions w) (S s)
                 (trace w ++ [Acquired s; Ran s q; Released s]))
  end.
Proof.
  unfold AttackKG.query, with_session, session_run, bind, log, lift, raise,
    ret, close.
  destruct (session_fails d) as [e|]; [reflexivity|].
  destruct (respond d q) as [e|r]; simpl;
    rewrite Nat.eqb_refl, <- !app_assoc; reflexivity.
Qed.

(** X20. [A1_counts] runs its two queries one after the other, each in a
    session of its own that is released before the next is taken.  When
    the node count fails, the failure is the outcome and the relationship
    count is never run; whatever happens, no session stays open. *)
Theorem A1_counts_runs_in_sequence (d : Driver) (w : World) :
  open_sessions (snd (AttackKG.A1_counts d w)) = open_sessions w /\
  match session_fails d with
  | Some e => AttackKG.A1_counts d w = (inl e, w)
  | None =>
      let s := next_session w in
      match fst (AttackKG.query d Q_A1_nodes w) with
      | inl e =>
          fst (AttackKG.A1_counts d w) = inl e /\
          trace (snd (AttackKG.A1_counts d w))
          = (trace w ++ [Acquired s; Ran s Q_A1_nodes; Released s])%list
      | inr nodes_df =>
          trace (snd (AttackKG.A1_counts d w))
          = (trace w ++ [Acquired s; Ran s Q_A1_nodes; Released s;
                         Acquired (S s); Ran (S s) Q_A1_relationships;
                         Released (S s)])%list /\
          fst (AttackKG.A1_counts d w)
          = match fst (AttackKG.query d Q_A1_relationships
                         (snd (AttackKG.query d Q_A1_nodes w))) with
            | inl e => inl e
            | inr rels_df => inr (nodes_df, rels_df)
            end
      end
  end.
Proof.
  unfold AttackKG.A1_counts, bind, ret.
  pose proof (query_steps d Q_A1_nodes w) as H1.
  destruct (session_fails d) as [e|] eqn:Hs.
  { rewrite H1. split; reflexivity. }
  cbv zeta in H1. rewrite H1. cbn [fst snd].
  destruct (match respond d Q_A1_nodes with
            | RunFails e => inl e
            | Answers r => df_from_result r
            end) as [e|nodes_df]; cbn [fst snd open_sessions trace].
  { split; [reflexivity|split; reflexivity]. }
  pose proof (query_steps d Q_A1_relationships
                (mkWorld (open_sessions w) (S (next_session w))
                   (trace w ++ [Acquired (next_session w);
                                Ran (next_session w) Q_A1_nodes;
                                Released (next_session w)]))) as H2.
  rewrite Hs in H2. cbv zeta in H2. cbn [next_session open_sessions trace] in H2.
  rewrite H2.
  destruct (match respond d Q_A1_relationships with
            | RunFails e => inl e
            | Answers r => df_from_result r
            end) as [e|rels_df]; cbn [fst snd open_sessions trace];
    rewrite <- app_assoc; repeat split; reflexivity.
Qed.

(* ===================================================================== *)
(** ** Printing and the demonstration *)

Lemma print_section_lines ts title df c :
  _print_section ts title (Some df) c
  = (inr tt,
     mkConsole (world c)
       (printed c ++ [header title; if empty df then "(empty)" else ts df])
       (closes c)).
Proof.
  unfold _print_section, bindP, print. simpl.
  destruct (empty df); simpl; rewrite <- app_assoc; reflexivity.
Qed.

(** X21. Printing the table of a catalog query writes the header line and
    then either the marker [(empty)], exactly when the query returned zero
    records, or the rendered table; the marker [(no results)] is never
    written for a table that [query] returned. *)
Theorem print_section_of_query (ts : DataFrame -> string) (E : Engine)
        (G : Graph) (q : Query) (w : World) (df : DataFrame)
        (title : string) (c : Console) :
  fst (AttackKG.query (neo4j E G) q w) = inr df ->
  exists recs,
    run E G q = inr recs /\
    _print_section ts title (Some df) c
    = (inr tt,
       mkConsole (world c)
         (printed c ++ [header title;
                        match recs with [] => "(empty)" | _ => ts df end])
         (closes c)).
Proof.
  rewrite query_neo4j. destruct (run E G q) as [e|recs] eqn:Hrun; [discriminate|].
  intros H. inversion H; subst; clear H. exists recs. split; [reflexivity|].
  rewrite print_section_lines. f_equal. f_equal. f_equal. f_equal.
  destruct (DataFrame_of_shape (cols := columns_of q) (recs := recs))
    as [[-> _]|(Hd & Hc & _)].
  - destruct q; reflexivity.
  - exact (run_keys E G q Hrun).
  - reflexivity.
  - destruct recs as [|r recs]; [now elim Hd|].
    unfold empty. rewrite Hc.
    destruct (data (DataFrame_of (r :: recs))); [now elim Hd|].
    destruct q; reflexivity.
Qed.

Lemma print_section_of_query_witness :
  exists recs,
    run sample_engine (mkGraph [] []) (Q_C2 "APT29") = inr recs /\
    _print_section (fun _ => "table") "C2 mitigation gaps"
      (Some (mkDataFrame [] [])) (mkConsole sample_world [] 0)
    = (inr tt,
       mkConsole (world (mkConsole sample_world [] 0))
         (printed (mkConsole sample_world [] 0)
          ++ [header "C2 mitigation gaps";
              match recs with [] => "(empty)" | _ => "table" end])
         (closes (mkConsole sample_world [] 0))).
Proof.
  apply (@print_section_of_query (fun _ => "table") sample_engine
           (mkGraph [] []) (Q_C2 "APT29") sample_world).
  reflexivity.
Defined.

Lemma ran_queries_app t1 t2 :
  ran_queries (t1 ++ t2) = (ran_queries t1 ++ ran_queries t2)%list.
Proof. unfold ran_queries. apply flat_map_app. Qed.

Lemma after_same c c' :
  world c' = world c -> closes c' = closes c -> after c [] c'.
Proof. unfold after. intros -> ->. now rewrite app_nil_r. Qed.

Lemma after_refl c : after c [] c.
Proof. now apply after_same. Qed.

Lemma after_trans c1 c2 c3 qs1 qs2 :
  after c1 qs1 c2 -> after c2 qs2 c3 -> after c1 (qs1 ++ qs2) c3.
Proof.
  unfold after. intros (H1 & H2 & H3) (H4 & H5 & H6).
  rewrite H4, H1, app_assoc. repeat split; congruence.
Qed.

Lemma runs_bind A B (m : P A) (k : A -> P B) qs1 qs2 :
  runs m qs1 -> (forall x, runs (k x) qs2) -> runs (bindP m k) (qs1 ++ qs2).
Proof.
  intros Hm Hk c. unfold bindP.
  destruct (Hm c) as (k1 & Hle1 & Ha1 & Hok1).
  destruct (m c) as [[e|x] c1] eqn:Hmc; simpl in *.
  - exists k1. split; [rewrite length_app; lia|].
    split; [|discriminate].
    rewrite firstn_app. replace (k1 - List.length qs1)%nat with 0%nat by lia.
    simpl. now rewrite app_nil_r.
  - specialize (Hok1 x eq_refl). subst k1.
    destruct (Hk x c1) as (k2 & Hle2 & Ha2 & Hok2).
    exists (List.length qs1 + k2)%nat. split; [rewrite length_app; lia|].
    rewrite firstn_all in Ha1. split.
    + rewrite firstn_app_2. eapply after_trans; eauto.
    + intros y Hy. rewrite length_app. f_equal. eapply Hok2; eauto.
Qed.

Lemma runs_print ts title df : runs (_print_section ts title (Some df)) [].
Proof.
  intros c. exists 0%nat. rewrite print_section_lines. simpl.
  split; [lia|]. split; [|reflexivity]. now apply after_same.
Qed.

Lemma runs_query d q : runs (call (AttackKG.query d q)) [q].
Proof.
  intros c. unfold call. pose proof (query_steps d q (world c)) as H.
  destruct (session_fails d) as [e|].
  - rewrite H. exists 0%nat. simpl. split; [lia|].
    split; [now apply after_same|discriminate].
  - cbv zeta in H. rewrite H. exists 1%nat. simpl. split; [lia|].
    split; [|reflexivity]. unfold after. simpl.
    rewrite ran_queries_app. auto.
Qed.

Lemma runs_section ts title d q :
  runs (section_ ts title (AttackKG.query d q)) [q].
Proof.
  unfold section_. rewrite <- (app_nil_r [q]).
  apply runs_bind; [apply runs_query|]. intros df. apply runs_print.
Qed.

Lemma runs_A1 d :
  runs (call (AttackKG.A1_counts d)) [Q_A1_nodes; Q_A1_relationships].
Proof.
  intros c. unfold call, AttackKG.A1_counts, bind, ret.
  pose proof (query_steps d Q_A1_nodes (world c)) as H1.
  destruct (session_fails d) as [e|] eqn:Hs.
  - rewrite H1. exists 0%nat. simpl. split; [lia|].
    split; [now apply after_same|discriminate].
  - cbv zeta in H1. rewrite H1.
    destruct (match respond d Q_A1_nodes with
              | RunFails e => inl e
              | Answers r => df_from_result r
              end) as [e|nodes_df].
    + exists 1%nat. simpl. split; [lia|]. split; [|discriminate].
      unfold after. simpl. rewrite ran_queries_app. auto.
    + match goal with |- context [AttackKG.query d Q_A1_relationships ?w1] =>
        pose proof (query_steps d Q_A1_relationships w1) as H2 end.
      rewrite Hs in H2. cbv zeta in H2. rewrite H2.
      exists 2%nat. split; [simpl; lia|]. split.
      * unfold after.
        destruct (match respond d Q_A1_relationships with
                  | RunFails e => inl e
                  | Answers r => df_from_result r
                  end); simpl; rewrite !ran_queries_app; simpl;
          rewrite <- app_assoc; auto.
      * reflexivity.
Qed.

(** X22. Whatever the database does, the demonstration closes the driver
    exactly once and leaves no session open.  It issues the catalog's
    queries in their fixed order, with the default parameters, and stops at
    the first failure: the queries run are a prefix of that order, all 22
    of them when the demonstration succeeds, and a shorter prefix always
    ends in a failure that is passed on. *)
Theorem demo_closes_driver_and_stops_at_failure
        (ts : DataFrame -> string) (d : Driver) (c : Console) :
  closes (snd (demo ts d c)) = S (closes c) /\
  open_sessions (world (snd (demo ts d c))) = open_sessions (world c) /\
  exists k,
    (k <= 22)%nat /\
    ran_queries (trace (world (snd (demo ts d c))))
    = (ran_queries (trace (world c)) ++ firstn k demo_queries)%list /\
    (fst (demo ts d c) = inr tt -> k = 22%nat) /\
    ((k < 22)%nat -> exists e, fst (demo ts d c) = inl e).
Proof.
  unfold demo. cbv zeta. unfold try_finally, close_driver.
  match goal with |- context [let (r, c1) := ?body c in _] =>
    assert (Hruns : runs body demo_queries) end.
  { change demo_queries with
      ([Q_A1_nodes; Q_A1_relationships] ++ [] ++ [] ++
       [Q_A2] ++ [Q_A3] ++ [Q_A4] ++ [Q_A5] ++
       [Q_B1 "APT29"] ++ [Q_B2 "APT29"] ++ [Q_B3 "APT29"] ++
       [Q_B4 "Credential Dumping"] ++ [Q_B5] ++ [Q_B6 "APT29" "FIN7"] ++
       [Q_C1 "APT29"] ++ [Q_C2 "APT29"] ++ [Q_C3 25] ++
       [Q_C4 "Credential Dumping"] ++
       [Q_D1 "defense-evasion"] ++ [Q_D2] ++ [Q_D3] ++ [Q_D4] ++ [Q_D5 180] ++
       [Q_E3 "Mimikatz"])%list.
    apply runs_bind; [apply runs_A1|intros dfs].
    apply runs_bind; [apply runs_print|intros _].
    apply runs_bind; [apply runs_print|intros _].
    repeat (apply runs_bind; [apply runs_section|intros _]).
    apply runs_section. }
  destruct (Hruns c) as (k & Hle & (Hran & Hopen & Hcl) & Hok).
  match goal with |- context [let (r, c1) := ?body c in _] =>
    destruct (body c) as [r c1] end.
  simpl in *. split; [now rewrite Hcl|]. split; [exact Hopen|].
  exists k. split; [exact Hle|]. split; [exact Hran|].
  split.
  - intros Hr. exact (Hok tt Hr).
  - intros Hk. destruct r as [e|[]]; [eauto|].
    specialize (Hok tt eq_refl). lia.
Qed.

(* ===================================================================== *)
(** ** A graph without [:Attack] nodes *)

Lemma filter_none A (p : A -> bool) l :
  (forall x, In x l -> p x = false) -> filter p l = [].
Proof.
  induction l as [|x l IH]; [reflexivity|]. intros H. simpl.
  rewrite (H x) by now left. apply IH. intros y Hy. apply H. now right.
Qed.

Lemma flat_map_nil A B (f : A -> list B) l :
  (forall x, f x = []) -> flat_map f l = [].
Proof.
  intros H. induction l as [|x l IH]; [reflexivity|]. simpl. now rewrite H, IH.
Qed.

(** X23. On a graph none of whose nodes carries the label [:Attack] (the
    empty graph among them) the node count is one row holding 0,
    [A5_active_vs_inactive] is still one row, holding 0 and 0, and every
    other query over nodes returns zero records, for all parameters; only
    a negative limit is still refused. *)
Theorem without_attack_nodes (E : Engine) (G : Graph) (q : Query) :
  (forall n, In n (nodes G) -> attack n = false) ->
  match q with
  | Q_A1_nodes => run E G q = inr [[("nodes", VInt 0)]]
  | Q_A5 => run E G q = inr [[("inactive", VInt 0); ("active", VInt 0)]]
  | Q_A1_relationships | Q_A3 => True
  | Q_C3 l => run E G q = if l <? 0 then inl NegativeLimit else inr []
  | _ => run E G q = inr []
  end.
Proof.
  intros Hno. destruct q; simpl; auto.
  - unfold Cypher.zlen. now no_attack @filter_none Hno.
  - unfold Cypher.A2_object_types. now no_attack @filter_none Hno.
  - unfold Cypher.A4_tactic_technique_counts. now no_attack @filter_none Hno.
  - unfold Cypher.A5_active_vs_inactive. cbv zeta. now no_attack @filter_none Hno.
  - unfold Cypher.B1_group_techniques, Cypher.techniques_used,
      Cypher.groups_matching. cbv zeta. now no_attack @filter_none Hno.
  - unfold Cypher.B2_group_software, Cypher.groups_matching. cbv zeta.
    now no_attack @filter_none Hno.
  - unfold Cypher.B3_group_techniques_via_software, Cypher.groups_matching.
    cbv zeta. now no_attack @filter_none Hno.
  - unfold Cypher.B4_technique_users. cbv zeta. now no_attack @filter_none Hno.
  - unfold Cypher.B5_top_groups_by_techniques. now no_attack @filter_none Hno.
  - unfold Cypher.B6_shortest_connection_between_groups.
    no_attack @filter_none Hno. simpl. now rewrite andb_false_r.
  - unfold Cypher.C1_group_mitigations, Cypher.techniques_used,
      Cypher.groups_matching. cbv zeta. now no_attack @filter_none Hno.
  - unfold Cypher.C2_group_mitigation_gaps, Cypher.mitigation_counts,
      Cypher.techniques_used, Cypher.groups_matching. cbv zeta.
    now no_attack @filter_none Hno.
  - unfold Cypher.C3_detection_coverage_top, Cypher.detection_counts.
    destruct (limit_ <? 0); [reflexivity|]. no_attack @filter_none Hno. simpl.
    unfold limit. now rewrite firstn_nil.
  - unfold Cypher.C4_detections_for_tech. cbv zeta. now no_attack @filter_none Hno.
  - unfold Cypher.D1_tactic_mapping. cbv zeta. now no_attack @filter_none Hno.
  - unfold Cypher.D2_subtechniques. now no_attack @filter_none Hno.
  - unfold Cypher.D3_techniques_by_platform.
    rewrite flat_map_nil; [reflexivity|]. intros p. now no_attack @filter_none Hno.
  - unfold Cypher.D4_domain_breakdown.
    rewrite flat_map_nil; [reflexivity|]. intros p. now no_attack @filter_none Hno.
  - unfold Cypher.D5_recently_modified, Cypher.recent. now no_attack @filter_none Hno.
  - unfold Cypher.E3_software_pivot. cbv zeta. now no_attack @filter_none Hno.
Qed.

Lemma without_attack_nodes_witness :
  run sample_engine
      (mkGraph [mkNode 1 false (Some "attack-pattern") (Some "T1003")
                       None None None None None None] [])
      Q_A5
  = inr [[("inactive", VInt 0); ("active", VInt 0)]].
Proof.
  apply (@without_attack_nodes sample_engine
           (mkGraph [mkNode 1 false (Some "attack-pattern") (Some "T1003")
                            None None None None None None] [])
           Q_A5).
  intros n [<-|[]]. reflexivity.
Defined.

(* ===================================================================== *)
(** ** Tactic membership counts *)

(** X24. [A4_tactic_technique_counts] has one row per [shortname] of a
    tactic that holds at least one technique, in descending order of count;
    the count is the number of [IN_TACTIC] relationships that lead from a
    technique to a tactic of that shortname and is at least 1, so a tactic
    without techniques has no row. *)
Theorem A4_rows (G : Graph) :
  NoDup (map fst (Cypher.A4_tactic_technique_counts G)) /\
  StronglySorted (fun a b => snd b <= snd a)
                 (Cypher.A4_tactic_technique_counts G) /\
  (forall x n,
      In (x, n) (Cypher.A4_tactic_technique_counts G) <->
      (exists t, In t (nodes G) /\ Cypher.tactic_ t = true /\ shortname t = x /\
                 into G Cypher.in_tactic Cypher.technique t <> []) /\
      n = Cypher.zlen (memberships G x)) /\
  (forall x n, In (x, n) (Cypher.A4_tactic_technique_counts G) -> 1 <= n).
Proof.
  assert (Hcount : forall x,
    count (map snd (filter (fun r : option string * option Node =>
                              ostr_eqb x (fst r))
      (flat_map (fun tac => map (fun tech => (shortname tac, Some tech))
                   (into G Cypher.in_tactic Cypher.technique tac))
         (filter Cypher.tactic_ (nodes G)))))
    = Cypher.zlen (memberships G x)).
  { intros x.
    rewrite (grouped_values ostr_eqb shortname
               (into G Cypher.in_tactic Cypher.technique)
               (fun _ tech => Some tech)).
    rewrite filter_filter. unfold count, Cypher.zlen, memberships.
    rewrite <- map_flat_map, somes_Some. reflexivity. }
  assert (Hkey : forall x,
    In x (distinct ostr_eqb (map fst
      (flat_map (fun tac => map (fun tech => (shortname tac, Some tech))
                   (into G Cypher.in_tactic Cypher.technique tac))
         (filter Cypher.tactic_ (nodes G))))) <->
    exists t, In t (nodes G) /\ Cypher.tactic_ t = true /\ shortname t = x /\
              into G Cypher.in_tactic Cypher.technique t <> []).
  { intros x. rewrite distinct_In_eq.
    rewrite (grouped_keys shortname (into G Cypher.in_tactic Cypher.technique)
               (fun _ tech => Some tech)).
    split; intros (t & H1 & H2 & H3).
    - apply filter_In in H1. exists t. tauto.
    - exists t. split; [apply filter_In|]; tauto. }
  assert (Hspec : forall x n,
      In (x, n) (Cypher.A4_tactic_technique_counts G) <->
      (exists t, In t (nodes G) /\ Cypher.tactic_ t = true /\ shortname t = x /\
                 into G Cypher.in_tactic Cypher.technique t <> []) /\
      n = Cypher.zlen (memberships G x)).
  { intros x n. unfold Cypher.A4_tactic_technique_counts.
    rewrite order_by_In, in_map_iff. split.
    - intros ([k vs] & Heq & Hin). cbn [fst snd] in Heq.
      apply pair_equal_spec in Heq. destruct Heq as [<- <-].
      apply group_by_In in Hin. destruct Hin as [Hk ->].
      split; [now apply Hkey|apply Hcount].
    - intros [Hex ->]. eexists (x, _). split.
      + cbn [fst snd]. f_equal. apply Hcount.
      + apply group_by_In. split; [now apply Hkey|reflexivity]. }
  split; [|split; [|split; [exact Hspec|]]].
  - unfold Cypher.A4_tactic_technique_counts.
    eapply Permutation_NoDup;
      [symmetry; apply Permutation_map, order_by_perm|].
    rewrite map_map. cbn [fst].
    change (fun x : option string * list (option Node) => fst x)
      with (@fst (option string) (list (option Node))).
    rewrite group_by_keys. apply distinct_NoDup, ostr_eqb_refl.
  - unfold Cypher.A4_tactic_technique_counts.
    rewrite <- (firstn_all (order_by _ _)). apply sorted_desc_by.
  - intros x n Hin. apply Hspec in Hin.
    destruct Hin as [(t & Ht & Htac & Hn & Hne) ->].
    destruct (into G Cypher.in_tactic Cypher.technique t) as [|v vs] eqn:Hv;
      [congruence|].
    assert (Hin : In v (memberships G x)).
    { unfold memberships. apply in_flat_map. exists t.
      split; [|rewrite Hv; now left]. apply filter_In. split; [exact Ht|].
      rewrite Htac. simpl. apply ostr_eqb_eq. congruence. }
    pose proof (In_length_pos _ _ Hin). unfold Cypher.zlen. lia.
Qed.

(* ===================================================================== *)
(** ** The shortest path is a shortest one *)

Lemma path_end_same_start u w steps :
  nid u = nid w ->
  nid (Cypher.path_end u steps) = nid (Cypher.path_end w steps).
Proof.
  intros H. destruct steps as [|[r v] steps]; [exact H|].
  now rewrite !path_end_cons.
Qed.

Lemma path_end_app u s1 r w s2 :
  Cypher.path_end u (s1 ++ (r, w) :: s2) = Cypher.path_end w s2.
Proof.
  revert u. induction s1 as [|[r' v] s1 IH]; intros u; simpl.
  - apply path_end_cons.
  - rewrite path_end_cons. apply IH.
Qed.

Lemma walk_same_start G u w steps :
  nid u = nid w -> walk G w steps -> walk G u steps.
Proof.
  intros H Hw. destruct Hw as [|w r v steps Hr Hk Hd Hn Hrest]; constructor; auto.
  now rewrite H.
Qed.

Lemma walk_suffix G u s1 r w s2 :
  walk G u (s1 ++ (r, w) :: s2) -> walk G w s2.
Proof.
  revert u. induction s1 as [|[r' v] s1 IH]; intros u Hw; simpl in Hw;
    inversion Hw; subst; eauto.
Qed.

(** A walk can be cut down to one that visits no node twice and ends at
    the same node. *)
Lemma walk_simple G u steps :
  walk G u steps ->
  exists steps',
    walk G u steps' /\
    (List.length steps' <= List.length steps)%nat /\
    nid (Cypher.path_end u steps') = nid (Cypher.path_end u steps) /\
    NoDup (visited u steps').
Proof.
  induction 1 as [u|u r v steps Hr Hk Hd Hn Hw IH].
  - exists []. repeat split; auto; [constructor|].
    unfold visited. simpl. constructor; [tauto|constructor].
  - destruct IH as (steps0 & Hw0 & Hlen & Hend & Hnd).
    rewrite path_end_cons.
    destruct (in_dec Z.eq_dec (nid u) (visited v steps0)) as [Hin|Hnot].
    + unfold visited in Hin. destruct Hin as [Hv|Hin].
      * exists steps0. split; [eapply walk_same_start; [|exact Hw0]; congruence|].
        split; [simpl; lia|]. split.
        -- rewrite <- Hend. now apply path_end_same_start.
        -- unfold visited in *. now rewrite <- Hv.
      * apply in_map_iff in Hin. destruct Hin as ([r' w] & Hnw & Hin).
        simpl in Hnw. apply in_split in Hin. destruct Hin as (s1 & s2 & ->).
        exists s2. split.
        { eapply walk_same_start; [|eapply walk_suffix, Hw0]. congruence. }
        split; [rewrite length_app in Hlen; simpl in *; lia|]. split.
        { rewrite <- Hend, path_end_app. apply path_end_same_start. congruence. }
        unfold visited in *. rewrite map_app in Hnd. simpl in Hnd.
        rewrite <- Hnw.
        apply (NoDup_app_remove_l (nid v :: map (fun s => nid (snd s)) s1)).
        exact Hnd.
    + exists ((r, v) :: steps0). split; [now constructor|].
      split; [simpl; lia|]. split; [now rewrite path_end_cons|].
      unfold visited in *. simpl. now constructor.
Qed.

Lemma walk_rels G u steps :
  walk G u steps -> forall s, In s steps -> In (fst s) (rels G).
Proof.
  induction 1 as [|u r v steps Hr Hk Hd Hn Hw IH]; intros s Hs;
    [contradiction|].
  destruct Hs as [<-|Hs]; auto.
Qed.

Lemma walk_endpoints G u steps :
  walk G u steps ->
  forall s, In s steps ->
    In (src (fst s)) (visited u steps) /\ In (dst (fst s)) (visited u steps).
Proof.
  induction 1 as [|u r v steps Hr Hk Hd Hn Hw IH]; intros s Hs;
    [contradiction|].
  unfold visited in *. destruct Hs as [<-|Hs]; simpl.
  - destruct Hd as [[-> ->]|[-> ->]]; auto.
  - destruct (IH s Hs) as [H1 H2]. simpl in H1, H2. tauto.
Qed.

Lemma NoDup_map_injective A B (f : A -> B) l x y :
  NoDup (map f l) -> In x l -> In y l -> f x = f y -> x = y.
Proof.
  induction l as [|a l IH]; [contradiction|]. simpl. intros Hnd Hx Hy Hf.
  inversion Hnd as [|? ? Ha Hl]; subst.
  destruct Hx as [->|Hx], Hy as [->|Hy]; auto.
  - exfalso. apply Ha. rewrite Hf. now apply in_map.
  - exfalso. apply Ha. rewrite <- Hf. now apply in_map.
Qed.

(** A walk that visits no node twice takes no relationship twice. *)
Lemma simple_walk_rids G u steps :
  NoDup (map rid (rels G)) -> walk G u steps -> NoDup (visited u steps) ->
  NoDup (map (fun s => rid (fst s)) steps).
Proof.
  intros Hids. induction 1 as [|u r v steps Hr Hk Hd Hn Hw IH]; intros Hnd;
    [constructor|].
  unfold visited in Hnd. simpl in Hnd. inversion Hnd as [|? ? Hu Hrest]; subst.
  simpl. constructor; [|now apply IH].
  intros Hin. apply in_map_iff in Hin. destruct Hin as (s & Hrid & Hs).
  assert (Heq : fst s = r).
  { apply (NoDup_map_injective rid (rels G)); auto.
    eapply walk_rels; eauto. }
  destruct (walk_endpoints Hw s Hs) as [Hsrc Hdst]. rewrite Heq in Hsrc, Hdst.
  unfold visited in Hsrc, Hdst. apply Hu.
  destruct Hd as [[Hd _]|[Hd _]]; rewrite <- Hd; assumption.
Qed.

Lemma other_end_walk r u v :
  (src r = nid u /\ dst r = nid v \/ dst r = nid u /\ src r = nid v) ->
  Cypher.other_end r (nid u) = Some (nid v).
Proof.
  unfold Cypher.other_end. intros [[Hs Hd]|[Hd Hs]].
  - now rewrite Hs, Z.eqb_refl, Hd.
  - destruct (Z.eqb_spec (src r) (nid u)) as [He|_].
    + f_equal. congruence.
    + now rewrite Hd, Z.eqb_refl, Hs.
Qed.

(** A walk that takes no relationship twice is among the paths the search
    enumerates for its length. *)
Lemma trails_complete G u steps :
  walk G u steps ->
  forall used,
    NoDup (map (fun s => rid (fst s)) steps) ->
    (forall s, In s steps -> ~ In (rid (fst s)) used) ->
    In steps (Cypher.trails G (List.length steps) used u).
Proof.
  induction 1 as [|u r v steps Hr Hk Hd Hn Hw IH]; intros used Hnd Hfree;
    [now left|].
  simpl. apply in_flat_map. exists r. split; [exact Hr|].
  rewrite Hk. simpl.
  assert (Hnew : existsb (Z.eqb (rid r)) used = false).
  { apply not_true_is_false. intros Hex. apply existsb_exists in Hex.
    destruct Hex as (i & Hi & Heq). apply Z.eqb_eq in Heq. subst i.
    apply (Hfree (r, v)); [now left|exact Hi]. }
  rewrite Hnew. simpl. rewrite (other_end_walk r u v Hd), Hn.
  apply in_map. simpl in Hnd. inversion Hnd as [|? ? Hr' Hrest]; subst.
  apply IH; [exact Hrest|].
  intros s Hs [Heq|Hin].
  - apply Hr'. rewrite Heq. now apply (in_map (fun s => rid (fst s))).
  - apply (Hfree s); [now right|exact Hin].
Qed.

Lemma first_found A (f : nat -> list (list A)) q j :
  (forall k x, In x (f k) -> List.length x = k) ->
  In q (f j) ->
  forall n s, In j (seq s n) ->
    exists p rest, flat_map f (seq s n) = p :: rest /\
                   (List.length p <= j)%nat.
Proof.
  intros Hlen Hq. induction n as [|n IH]; intros s Hj; [contradiction|].
  simpl. destruct (f s) as [|p rest] eqn:Hf.
  - simpl. apply IH. destruct Hj as [->|Hj]; [|exact Hj].
    rewrite Hf in Hq. contradiction.
  - exists p, (rest ++ flat_map f (seq (S s) n))%list. split; [reflexivity|].
    rewrite (Hlen s p) by (rewrite Hf; now left).
    apply in_seq in Hj. lia.
Qed.

(** X25. In a graph whose relationships have distinct identifiers, for two
    different nodes [shortestPath] succeeds whenever the second is within 6
    hops of the first, and the path it returns is a shortest one: no walk
    between them, whatever the direction of its relationships, has fewer
    hops.  Accordingly [B6_shortest_connection_between_groups], when it
    answers, holds such a path for every pair of distinct matched groups
    that are within 6 hops of each other. *)
Theorem shortestPath_is_shortest (E : Engine) (G : Graph) (g1 g2 : string) :
  NoDup (map rid (rels G)) ->
  (forall a b steps,
      same_node a b = false ->
      walk G a steps -> (List.length steps <= 6)%nat ->
      same_node (Cypher.path_end a steps) b = true ->
      exists p,
        Cypher.shortestPath G a b = Some p /\
        (List.length (psteps p) <= List.length steps)%nat) /\
  (forall ps a b steps,
      Cypher.B6_shortest_connection_between_groups E G g1 g2 = inr ps ->
      matches G g1 a -> matches G g2 b -> same_node a b = false ->
      walk G a steps -> (List.length steps <= 6)%nat ->
      same_node (Cypher.path_end a steps) b = true ->
      exists p,
        In p ps /\ pstart p = a /\
        same_node (Cypher.path_end a (psteps p)) b = true /\
        (List.length (psteps p) <= List.length steps)%nat).
Proof.
  intros Hids.
  assert (Hshort : forall a b steps,
      same_node a b = false ->
      walk G a steps -> (List.length steps <= 6)%nat ->
      same_node (Cypher.path_end a steps) b = true ->
      exists p,
        Cypher.shortestPath G a b = Some p /\
        (List.length (psteps p) <= List.length steps)%nat).
  { intros a b steps Hab Hw Hlen Hend.
    destruct (walk_simple Hw) as (s' & Hw' & Hlen' & Hend' & Hnd).
    assert (Hend2 : same_node (Cypher.path_end a s') b = true).
    { unfold same_node in *. now rewrite Hend'. }
    assert (Hpos : (1 <= List.length s')%nat).
    { destruct s'; [|simpl; lia]. unfold Cypher.path_end in Hend2. simpl in Hend2.
      congruence. }
    assert (Hin : In s' (filter (fun p => same_node (Cypher.path_end a p) b)
                           (Cypher.trails G (List.length s') [] a))).
    { apply filter_In. split; [|exact Hend2].
      apply trails_complete; auto.
      now apply (simple_walk_rids Hids Hw'). }
    destruct (first_found
                (fun k => filter (fun p => same_node (Cypher.path_end a p) b)
                            (Cypher.trails G k [] a))
                s' (List.length s')) with (n := 6%nat) (s := 1%nat)
      as (p & rest & Hp & Hle); auto.
    - intros k x Hx. apply filter_In in Hx. destruct Hx as [Hx _].
      now apply (trails_walk G k [] a).
    - apply in_seq. lia.
    - exists (mkPath a p). unfold Cypher.shortestPath. rewrite Hp.
      split; [reflexivity|]. simpl. lia. }
  split; [exact Hshort|].
  intros ps a b steps Hres Ha Hb Hab Hw Hlen Hend.
  destruct (Hshort a b steps Hab Hw Hlen Hend) as (p & Hp & Hle).
  exists p. destruct (shortestPath_sound _ _ _ Hp) as (Hs & _ & _ & He).
  repeat split; auto.
  unfold Cypher.B6_shortest_connection_between_groups in Hres.
  destruct (forbid_common_nodes E && existsb _ _); [discriminate|].
  injection Hres as <-.
  apply in_flat_map. exists (a, b). split.
  - apply in_prod_iff. split; apply matches_filter; assumption.
  - simpl. rewrite Hab, Hp. now left.
Qed.

Lemma shortestPath_is_shortest_witness :
  exists p,
    Cypher.shortestPath shared_technique
      (sample_node 1 "intrusion-set" "APT29")
      (sample_node 2 "intrusion-set" "FIN7") = Some p /\
    (List.length (psteps p) <= 2)%nat.
Proof.
  apply (proj1 (@shortestPath_is_shortest sample_engine shared_technique
                  "APT29" "FIN7"
                  ltac:(repeat (constructor; [simpl; intuition discriminate|]);
                        constructor))
           (sample_node 1 "intrusion-set" "APT29")
           (sample_node 2 "intrusion-set" "FIN7")
           [(mkRel 1 ATTACK_REL (Some "uses") 1 3,
             sample_node 3 "attack-pattern" "T1003");
            (mkRel 2 ATTACK_REL (Some "uses") 2 3,
             sample_node 2 "intrusion-set" "FIN7")]).
  - reflexivity.
  - constructor; [simpl; auto|reflexivity|simpl; auto|reflexivity|].
    constructor; [simpl; auto|reflexivity|simpl; auto|reflexivity|].
    constructor.
  - simpl. lia.
  - reflexivity.
Defined.
